(** * schrodinger-2d: the trajectory reader and the domain colouring of
    [visualizer.py]

    The development embeds the two functions of [src/visualizer.py] that do
    the work of the visualizer:

    - [read_trajectory], the decoder of the binary trajectory container,
      as a program in a small state-and-exception monad over an open file
      object and the standard output;
    - [complex_to_rgb], the whole-array colour transform, as a program
      over a store of numpy arrays.

    Conventions.  Python integers are unbounded and are modelled by [Z].
    A file is its sequence of bytes.  The buffered reader follows the
    reference implementation of the [io] module: [read(n)] returns at most
    [n] bytes for [n >= 0], everything up to the end of the file for
    [n = -1], and raises [ValueError] for [n < -1]; as in CPython on a
    64-bit platform, a size that does not fit a signed 64-bit integer is
    refused with [OverflowError] before anything is read.  The amount of
    memory of the machine is outside the model.  The byte order of
    [struct.unpack("iii", _)] is the platform's and is a parameter. *)

From Stdlib Require Import ZArith List Lia String Bool Reals Lra.
From stdpp Require Import base option list list_numbers.
From Stdlib.Strings Require Import Byte.

Local Open Scope Z_scope.

(* ------------------------------------------------------------------ *)
(** ** Results of Python computations *)

(** The exceptions of the model. [SystemExit] is what [sys.exit] raises,
    [StructError] is [struct.error]. *)
Inductive exn : Type :=
  | SystemExit (code : Z)
  | StructError
  | ValueError
  | OverflowError
  | IndexError
  | TypeError.

Inductive result (A : Type) : Type :=
  | Ok (a : A)
  | Raise (e : exn).

Arguments Ok {A} a.
Arguments Raise {A} e.

(** A computation over a state of type [St] returns or raises; the state
    is kept in both cases. *)
Definition M (St A : Type) : Type := St -> result A * St.

Definition ret {St A : Type} (a : A) : M St A := fun s => (Ok a, s).

Definition raise {St A : Type} (e : exn) : M St A := fun s => (Raise e, s).

Definition bind {St A B : Type} (m : M St A) (k : A -> M St B) : M St B :=
  fun s =>
    match m s with
    | (Ok a, s') => k a s'
    | (Raise e, s') => (Raise e, s')
    end.

Definition lift {St A : Type} (r : result A) : M St A := fun s => (r, s).

Declare Scope io_scope.
Delimit Scope io_scope with io.

Notation "x <- m ;; k" := (bind m (fun x => k))
  (at level 100, m at next level, right associativity) : io_scope.
Notation "m ;;; k" := (bind m (fun _ => k))
  (at level 100, right associativity) : io_scope.

Local Open Scope io_scope.

(* ------------------------------------------------------------------ *)
(** ** Bytes and integers *)

Inductive byteorder : Type := LittleEndian | BigEndian.

Definition byte_val (b : byte) : Z := Z.of_N (Byte.to_N b).

(** The unsigned value of a little-endian byte string. *)
Fixpoint uint_le (bs : list byte) : Z :=
  match bs with
  | [] => 0
  | b :: rest => Z.lor (byte_val b) (Z.shiftl (uint_le rest) 8)
  end.

Definition uint_of_bytes (bo : byteorder) (bs : list byte) : Z :=
  match bo with
  | LittleEndian => uint_le bs
  | BigEndian => uint_le (rev bs)
  end.

(** A C [int]: four bytes, two's complement. *)
Definition int32_of_bytes (bo : byteorder) (bs : list byte) : Z :=
  let u := uint_of_bytes bo bs in
  if u <? 2 ^ 31 then u else u - 2 ^ 32.

#[global] Instance byte_eq_decision : EqDecision byte := Byte.byte_eq_dec.

(** [b"SCHR"] *)
Definition SCHR : list byte := [x53; x43; x48; x52].

Module struct.

(** [struct.unpack("iii", buf)]: three native [int]s, no padding between
    them; a buffer that is not exactly 12 bytes long raises
    [struct.error]. *)
Definition unpack_iii (bo : byteorder) (buf : list byte) : result (Z * Z * Z) :=
  if (length buf =? 12)%nat then
    Ok (int32_of_bytes bo (take 4 buf),
        int32_of_bytes bo (take 4 (drop 4 buf)),
        int32_of_bytes bo (take 4 (drop 8 buf)))
  else Raise StructError.

End struct.

(* ------------------------------------------------------------------ *)
(** ** numpy arrays *)

(** An array is a flat buffer of elements with a shape. *)
Record ndarray (T : Type) : Type := mk_ndarray {
  shape : list Z;
  data : list T
}.

Arguments mk_ndarray {T} shape data.
Arguments shape {T} n.
Arguments data {T} n.

(** A [complex128] as it lies in the file: the bit patterns of the two
    IEEE-754 doubles, real part first. *)
Definition complex128 : Type := (Z * Z)%type.

(** *** The store of arrays *)

(** In [complex_to_rgb] the rounding of float arithmetic is idealised: a
    finite [float64] is a real number and a [complex128] sample a pair of
    them.  Samples are finite; NaN and infinite samples are outside the
    model.  From finite samples the one operation that can leave the
    finite range is [np.abs], whose result overflows to [+inf] for large
    samples, so a float is finite or [+inf] where it comes from [np.abs]. *)
Definition complex : Type := (R * R)%type.

(** A [float64] that is finite or [+inf]. *)
Inductive xfloat : Type :=
  | Finite (r : R)
  | Infinity.

(** The least real number that rounds to [+inf]: [2^1024 - 2^970], half an
    ulp above the largest finite [float64]. *)
Definition overflow_bound_Z : Z := Eval vm_compute in (2 ^ 1024 - 2 ^ 970).

Definition overflow_bound : R := IZR overflow_bound_Z.

(** The [float64] that the literal [1e-9] denotes:
    [4835703278458517 / 2^82], a little above [10^-9]. *)
Definition double_1e_9 : R :=
  (4835703278458517 / 4835703278458516698824704)%R.

(** [abs] of a complex number *)
Definition Cabs (z : complex) : xfloat :=
  let a := sqrt (fst z * fst z + snd z * snd z) in
  if Rlt_dec a overflow_bound then Finite a else Infinity.

Definition Cmult (z w : complex) : complex :=
  (fst z * fst w - snd z * snd w, fst z * snd w + snd z * fst w)%R.

Definition Rgtb (x y : R) : bool := if Rgt_dec x y then true else false.

(** Comparison, arc tangent and division where an operand may be [+inf]:
    [atan(+inf)] is [pi / 2] and a finite number divided by [+inf] is 0. *)
Definition xgtb (x : xfloat) (y : R) : bool :=
  match x with Finite r => Rgtb r y | Infinity => true end.

Definition xatan (x : xfloat) : R :=
  match x with Finite r => atan r | Infinity => (PI / 2)%R end.

Definition xdiv (x : R) (y : xfloat) : R :=
  match y with Finite r => (x / r)%R | Infinity => 0%R end.

(** An array object, by the type of its elements.  A [float64] array is a
    [VFloat] when all its elements are finite and a [VFloatInf] when some
    may be [+inf]. *)
Inductive value : Type :=
  | VFloat (a : ndarray R)
  | VFloatInf (a : ndarray xfloat)
  | VComplex (a : ndarray complex)
  | VBool (a : ndarray bool).

(** Python variables hold references to array objects; the objects live in
    a store and a reference is an index into it. *)
Definition ref : Type := nat.
Definition store : Type := list value.
Definition Np : Type -> Type := M store.

Definition alloc (v : value) : Np ref :=
  fun s => (Ok (length s), s ++ [v]).

Definition load (r : ref) : Np value :=
  fun s => match s !! r with
           | Some v => (Ok v, s)
           | None => (Raise TypeError, s)
           end.

Definition update (r : ref) (v : value) : Np unit :=
  fun s => (Ok tt, <[r := v]> s).

Definition load_float (r : ref) : Np (ndarray R) :=
  v <- load r ;;
  match v with VFloat a => ret a | _ => raise TypeError end.

(** A [float64] array of either kind. *)
Definition load_xfloat (r : ref) : Np (ndarray xfloat) :=
  v <- load r ;;
  match v with
  | VFloatInf a => ret a
  | VFloat a => ret (mk_ndarray (shape a) (map Finite (data a)))
  | _ => raise TypeError
  end.

Definition load_complex (r : ref) : Np (ndarray complex) :=
  v <- load r ;;
  match v with VComplex a => ret a | _ => raise TypeError end.

Definition load_bool (r : ref) : Np (ndarray bool) :=
  v <- load r ;;
  match v with VBool a => ret a | _ => raise TypeError end.

(** The elements of [xs] at the positions where [mask] is true, in order. *)
Fixpoint select {T : Type} (mask : list bool) (xs : list T) : list T :=
  match mask, xs with
  | b :: mask', x :: xs' => if b then x :: select mask' xs' else select mask' xs'
  | _, _ => []
  end.

(** [xs] with the positions where [mask] is true overwritten, in order, by
    the elements of [vals]. *)
Fixpoint scatter {T : Type} (mask : list bool) (xs vals : list T) : list T :=
  match mask, xs with
  | b :: mask', x :: xs' =>
      if b then
        match vals with
        | v :: vals' => v :: scatter mask' xs' vals'
        | [] => x :: scatter mask' xs' []
        end
      else x :: scatter mask' xs' vals
  | _, _ => xs
  end.

(** The numpy operations.  [frombuffer] and [reshape] are used by the
    reader and act on array values.  The operations [complex_to_rgb] uses
    act on the store: each one reads its operands from the store and puts
    its result into a new array; only the masked assignment [setitem]
    writes into an existing one.  All operands of a binary operation have
    the same shape here, so broadcasting is not modelled: operands of
    different shapes are rejected. *)
Module np.

Definition complex128_of_bytes (bo : byteorder) (bs : list byte) : complex128 :=
  (uint_of_bytes bo (take 8 bs), uint_of_bytes bo (take 8 (drop 8 bs))).

(** [np.frombuffer(buf, dtype=np.complex128)]: element [k] is made of the
    bytes [16k .. 16k+15]; the size of the buffer must be a multiple of
    the element size. *)
Definition frombuffer (bo : byteorder) (buf : list byte) : result (ndarray complex128) :=
  if (length buf mod 16 =? 0)%nat then
    let count := (length buf / 16)%nat in
    Ok (mk_ndarray [Z.of_nat count]
          (map (fun k => complex128_of_bytes bo (take 16 (drop (16 * k) buf)))
               (seq 0 count)))
  else Raise ValueError.

(** [arr.reshape(newshape)]: at most one dimension may be negative, and
    is then inferred from the others; the sizes must agree. *)
Definition reshape {T : Type} (arr : ndarray T) (newshape : list Z) : result (ndarray T) :=
  let size := Z.of_nat (length (data arr)) in
  let known := fold_right Z.mul 1 (filter (fun d => 0 <= d) newshape) in
  match filter (fun d => d < 0) newshape with
  | [] =>
      if size =? known then Ok (mk_ndarray newshape (data arr))
      else Raise ValueError
  | [_] =>
      if (known =? 0) || negb (size mod known =? 0) then Raise ValueError
      else Ok (mk_ndarray
                 (map (fun d => if d <? 0 then size / known else d) newshape)
                 (data arr))
  | _ => Raise ValueError
  end.

(** An elementwise operation on a float array. *)
Definition map_float (f : R -> R) (x : ref) : Np ref :=
  a <- load_float x ;;
  alloc (VFloat (mk_ndarray (shape a) (map f (data a)))).

(** An elementwise operation on two float arrays. *)
Definition zip_float (f : R -> R -> R) (x y : ref) : Np ref :=
  a <- load_float x ;;
  b <- load_float y ;;
  if decide (shape a = shape b) then
    alloc (VFloat (mk_ndarray (shape a) (zip_with f (data a) (data b))))
  else raise ValueError.

(** [np.abs(z)] of a complex array *)
Definition abs (z : ref) : Np ref :=
  a <- load_complex z ;;
  alloc (VFloatInf (mk_ndarray (shape a) (map Cabs (data a)))).

(** [x > c] *)
Definition greater (x : ref) (c : R) : Np ref :=
  a <- load_xfloat x ;;
  alloc (VBool (mk_ndarray (shape a) (map (fun v => xgtb v c) (data a)))).

(** [np.zeros_like(x)] *)
Definition zeros_like (x : ref) : Np ref :=
  v <- load x ;;
  match v with
  | VFloat a => alloc (VFloat (mk_ndarray (shape a) (map (fun _ => 0%R) (data a))))
  | VFloatInf a => alloc (VFloat (mk_ndarray (shape a) (map (fun _ => 0%R) (data a))))
  | VComplex a =>
      alloc (VComplex (mk_ndarray (shape a) (map (fun _ => (0%R, 0%R)) (data a))))
  | VBool a => alloc (VBool (mk_ndarray (shape a) (map (fun _ => false) (data a))))
  end.

(** [x[mask]]: a new one-dimensional array *)
Definition getitem (x mask : ref) : Np ref :=
  v <- load x ;;
  m <- load_bool mask ;;
  let pick {T : Type} (a : ndarray T) : ndarray T :=
    let sel := select (data m) (data a) in
    mk_ndarray [Z.of_nat (length sel)] sel in
  match v with
  | VFloat a =>
      if decide (shape a = shape m) then alloc (VFloat (pick a)) else raise IndexError
  | VFloatInf a =>
      if decide (shape a = shape m) then alloc (VFloatInf (pick a)) else raise IndexError
  | VComplex a =>
      if decide (shape a = shape m) then alloc (VComplex (pick a)) else raise IndexError
  | VBool a =>
      if decide (shape a = shape m) then alloc (VBool (pick a)) else raise IndexError
  end.

(** [x[mask] = vals]: writes into the array [x] refers to; there must be
    as many values as true positions. *)
Definition setitem (x mask vals : ref) : Np unit :=
  v <- load x ;;
  m <- load_bool mask ;;
  w <- load vals ;;
  let put {T : Type} (a b : ndarray T) : option (ndarray T) :=
    if decide (shape a = shape m) then
      if decide (length (data b) = length (select (data m) (data a))) then
        Some (mk_ndarray (shape a) (scatter (data m) (data a) (data b)))
      else None
    else None in
  match v, w with
  | VFloat a, VFloat b =>
      match put a b with
      | Some a' => update x (VFloat a')
      | None => raise ValueError
      end
  | VComplex a, VComplex b =>
      match put a b with
      | Some a' => update x (VComplex a')
      | None => raise ValueError
      end
  | _, _ => raise TypeError
  end.

(** [np.arctan(x)]: finite also where [x] is [+inf] *)
Definition arctan (x : ref) : Np ref :=
  a <- load_xfloat x ;;
  alloc (VFloat (mk_ndarray (shape a) (map xatan (data a)))).

(** [x / c] and [c * x] for a scalar [c] *)
Definition divide_scalar (x : ref) (c : R) : Np ref :=
  map_float (fun v => v / c)%R x.

Definition multiply_scalar (c : R) (x : ref) : Np ref :=
  map_float (fun v => c * v)%R x.

Definition add : ref -> ref -> Np ref := zip_float Rplus.
Definition subtract : ref -> ref -> Np ref := zip_float Rminus.

(** [x / y] for a finite array [x]; [y] may hold [+inf] *)
Definition divide (x y : ref) : Np ref :=
  a <- load_float x ;;
  b <- load_xfloat y ;;
  if decide (shape a = shape b) then
    alloc (VFloat (mk_ndarray (shape a) (zip_with xdiv (data a) (data b))))
  else raise ValueError.

(** [z * f] for a complex array [z] and a float array [f]: the float is
    promoted to a complex number with imaginary part zero. *)
Definition multiply_complex_float (z f : ref) : Np ref :=
  a <- load_complex z ;;
  b <- load_float f ;;
  if decide (shape a = shape b) then
    alloc (VComplex (mk_ndarray (shape a)
                       (zip_with (fun c x => Cmult c (x, 0%R)) (data a) (data b))))
  else raise ValueError.

(** [z.real] and [z.imag]; nothing is written through them afterwards,
    and they are modelled by arrays of their own. *)
Definition real (z : ref) : Np ref :=
  a <- load_complex z ;;
  alloc (VFloat (mk_ndarray (shape a) (map fst (data a)))).

Definition imag (z : ref) : Np ref :=
  a <- load_complex z ;;
  alloc (VFloat (mk_ndarray (shape a) (map snd (data a)))).

Fixpoint interleave3 (rs gs bs : list R) : list R :=
  match rs, gs, bs with
  | r :: rs', g :: gs', b :: bs' => r :: g :: b :: interleave3 rs' gs' bs'
  | _, _, _ => []
  end.

(** The shape of the stack of three arrays of shape [sh]: arrays of fewer
    than three dimensions are first viewed as [(1, 1, 1)], [(1, N, 1)] or
    [(M, N, 1)], and the stack has 3 along the third axis. *)
Definition dstack_shape (sh : list Z) : list Z :=
  match sh with
  | [] => [1; 1; 3]
  | [n] => [1; n; 3]
  | _ => sh ++ [3]
  end.

(** [np.dstack((r, g, b))] of three arrays of at most two dimensions: the
    three values of a position lie next to each other along the third
    axis.  Frames are two-dimensional; for arrays of more dimensions numpy
    joins the arrays along their third axis, which is not modelled. *)
Definition dstack (r g b : ref) : Np ref :=
  ar <- load_float r ;;
  ag <- load_float g ;;
  ab <- load_float b ;;
  if decide (shape ar = shape ag /\ shape ar = shape ab) then
    alloc (VFloat (mk_ndarray (dstack_shape (shape ar))
                     (interleave3 (data ar) (data ag) (data ab))))
  else raise ValueError.

(** [np.clip(x, lo, hi)] is [minimum(maximum(x, lo), hi)]. *)
Definition clip (x : ref) (lo hi : R) : Np ref :=
  map_float (fun v => Rmin (Rmax v lo) hi) x.

End np.

Definition frame : Type := ndarray complex128.

(* ------------------------------------------------------------------ *)
(** ** The file object, the output and the monad of the reader *)

Inductive message : Type :=
  | MsgNotFound (filename : string)
      (* "Error: File {filename} not found." *)
  | MsgBadMagic
      (* "Error: Invalid file format (Magic header mismatch)." *)
  | MsgLoading (filename : string) (width height frame_count : Z)
      (* "Loading {filename}: {width}x{height}, {frame_count} frames" *)
  | MsgIncomplete (i : Z).
      (* "Warning: Incomplete frame {i}" *)

(** The state a run of the reader acts on: the bytes of the open file, the
    offset of the next byte to read, and what was printed so far. *)
Record state : Type := mk_state {
  content : list byte;
  offset : nat;
  stdout : list message
}.

Definition IO : Type -> Type := M state.

Definition print (m : message) : IO unit :=
  fun s => (Ok tt, mk_state (content s) (offset s) (stdout s ++ [m])).

(** [f.read(n)]: the size is first converted to a signed 64-bit integer,
    which fails for sizes outside its range. *)
Definition f_read (n : Z) : IO (list byte) :=
  fun s =>
    if (n <? - 2 ^ 63) || (2 ^ 63 <=? n) then (Raise OverflowError, s)
    else if n <? -1 then (Raise ValueError, s)
    else
      let avail := drop (offset s) (content s) in
      let got := if n =? -1 then avail else take (Z.to_nat n) avail in
      (Ok got, mk_state (content s) (offset s + length got)%nat (stdout s)).

(* ------------------------------------------------------------------ *)
(** ** [read_trajectory] *)

Section Reader.

Variable bo : byteorder.

(** The loop [for i in range(frame_count)] over the indices still to
    visit; [frames] is the list built so far. *)
Fixpoint read_frames (indices : list Z) (frame_size_bytes height width : Z)
    (frames : list frame) : IO (list frame) :=
  match indices with
  | [] => ret frames
  | i :: indices' =>
      data <- f_read frame_size_bytes ;;
      if negb (Z.of_nat (length data) =? frame_size_bytes) then
        print (MsgIncomplete i) ;;;
        ret frames
      else
        arr <- lift (np.frombuffer bo data) ;;
        arr' <- lift (np.reshape arr [height; width]) ;;
        read_frames indices' frame_size_bytes height width (frames ++ [arr'])
  end.

(** The body of [with open(filename, "rb") as f]. *)
Definition read_open_file (filename : string) : IO (Z * Z * list frame) :=
  magic <- f_read 4 ;;
  if bool_decide (magic <> SCHR) then
    print MsgBadMagic ;;;
    raise (SystemExit 1)
  else
    header <- f_read 12 ;;
    fields <- lift (struct.unpack_iii bo header) ;;
    let '(width, height, frame_count) := fields in
    print (MsgLoading filename width height frame_count) ;;;
    let frames := [] in
    let num_pixels := width * height in
    let frame_size_bytes := num_pixels * 16 in
    frames <- read_frames (seqZ 0 frame_count) frame_size_bytes height width frames ;;
    ret (width, height, frames).

(** What a call of [read_trajectory] is observed to do. *)
Record outcome : Type := mk_outcome {
  returned : result (Z * Z * list frame);
  printed : list message;
  consumed : nat   (* bytes read from the file *)
}.

(** [fsys] gives the bytes of the regular files that exist. *)
Definition read_trajectory (fsys : string -> option (list byte))
    (filename : string) : outcome :=
  match fsys filename with
  | None => mk_outcome (Raise (SystemExit 1)) [MsgNotFound filename] 0
  | Some bytes =>
      let '(r, s) := read_open_file filename (mk_state bytes 0 []) in
      mk_outcome r (stdout s) (offset s)
  end.

End Reader.

(* ------------------------------------------------------------------ *)
(** ** The parts of a trajectory file *)

Definition file_magic (bytes : list byte) : list byte := take 4 bytes.
Definition file_header (bytes : list byte) : list byte := take 12 (drop 4 bytes).
Definition file_payload (bytes : list byte) : list byte := drop 16 bytes.

(** The frame that [size] bytes starting at byte [k * size] of the payload
    decode to. *)
Definition frame_of_bytes (bo : byteorder) (height width : Z) (buf : list byte) : frame :=
  mk_ndarray [height; width]
    (map (fun k => np.complex128_of_bytes bo (take 16 (drop (16 * k) buf)))
         (seq 0 (length buf / 16))).

(** The number of bytes of a frame. *)
Definition frame_size (width height : Z) : nat := Z.to_nat (width * height * 16).

Definition payload_frame (bo : byteorder) (height width : Z) (payload : list byte)
    (k : nat) : frame :=
  let size := frame_size width height in
  frame_of_bytes bo height width (take size (drop (k * size) payload)).

(** A file system with one file. *)
Definition single_file (name : string) (bytes : list byte) : string -> option (list byte) :=
  fun name' => if String.eqb name' name then Some bytes else None.

(* ------------------------------------------------------------------ *)
(** ** [complex_to_rgb] *)

(** The statements of the function, one numpy operation at a time. *)
Definition complex_to_rgb (z : ref) : Np ref :=
  a <- np.abs z ;;
  valid_mask <- np.greater a double_1e_9 ;;
  y <- np.zeros_like a ;;
  (* y[valid_mask] = np.arctan(a[valid_mask]) / np.pi *)
  t1 <- np.getitem a valid_mask ;;
  t2 <- np.arctan t1 ;;
  t3 <- np.divide_scalar t2 PI ;;
  np.setitem y valid_mask t3 ;;;
  scaled_z <- np.zeros_like z ;;
  (* scaled_z[valid_mask] = z[valid_mask] * (0.5 * y[valid_mask] / a[valid_mask]) *)
  t4 <- np.getitem z valid_mask ;;
  t5 <- np.getitem y valid_mask ;;
  t6 <- np.multiply_scalar 0.5 t5 ;;
  t7 <- np.getitem a valid_mask ;;
  t8 <- np.divide t6 t7 ;;
  t9 <- np.multiply_complex_float t4 t8 ;;
  np.setitem scaled_z valid_mask t9 ;;;
  u <- np.real scaled_z ;;
  v <- np.imag scaled_z ;;
  (* r = y + 1.5748 * v *)
  t10 <- np.multiply_scalar 1.5748 v ;;
  r <- np.add y t10 ;;
  (* g = y - 0.1873 * u - 0.4681 * v *)
  t11 <- np.multiply_scalar 0.1873 u ;;
  t12 <- np.subtract y t11 ;;
  t13 <- np.multiply_scalar 0.4681 v ;;
  g <- np.subtract t12 t13 ;;
  (* b = y + 1.8556 * u *)
  t14 <- np.multiply_scalar 1.8556 u ;;
  b <- np.add y t14 ;;
  rgb <- np.dstack r g b ;;
  np.clip rgb 0 1.

(** The pixel of position [i] of an image whose last axis has length 3. *)
Definition pixel_at (image : ndarray R) (i : nat) : option (R * R * R) :=
  match data image !! (3 * i)%nat, data image !! (3 * i + 1)%nat,
        data image !! (3 * i + 2)%nat with
  | Some r, Some g, Some b => Some (r, g, b)
  | _, _, _ => None
  end.

(** Clipping of a channel to [0, 1]. *)
Definition clip01 (c : R) : R := Rmin (Rmax c 0) 1.

(** The channels of one sample before clipping, as the specification
    words them: black at amplitudes up to the threshold, and otherwise
    luminance [atan(a) / pi], chroma [(u, v) = scale * (x, y)] with
    [scale = 0.5 * lum / a], and the fixed matrix.  The amplitude is the
    one [np.abs] computes and the threshold the [float64] that [1e-9]
    denotes. *)
Definition sample_channels (z : complex) : R * R * R :=
  let '(x, y) := z in
  let a := Cabs (x, y) in
  if xgtb a double_1e_9 then
    let lum := (xatan a / PI)%R in
    let scale := xdiv (0.5 * lum) a in
    let u := (scale * x)%R in
    let v := (scale * y)%R in
    (lum + 1.5748 * v, lum - 0.1873 * u - 0.4681 * v, lum + 1.8556 * u)%R
  else (0, 0, 0)%R.

(** The transform of one sample: every channel clipped to [0, 1]. *)
Definition sample_to_rgb (z : complex) : R * R * R :=
  let '(r, g, b) := sample_channels z in (clip01 r, clip01 g, clip01 b).

(** The image of a whole frame as the specification describes it: the
    transform of a sample, applied to every sample independently; and the
    stack of the channels before clipping. *)
Definition rgb_image (z : ndarray complex) : ndarray R :=
  mk_ndarray (np.dstack_shape (shape z))
    (flat_map (fun c => let '(r, g, b) := sample_to_rgb c in [r; g; b]) (data z)).

Definition rgb_stack (z : ndarray complex) : ndarray R :=
  mk_ndarray (np.dstack_shape (shape z))
    (flat_map (fun c => let '(r, g, b) := sample_channels c in [r; g; b]) (data z)).

(** The image a call [complex_to_rgb(z)] returns from the store [s], when
    it returns one. *)
Definition image_of_call (z : ref) (s : store) : option (ndarray R) :=
  match complex_to_rgb z s with
  | (Ok out, s') =>
      match s' !! out with
      | Some (VFloat image) => Some image
      | _ => None
      end
  | (Raise _, _) => None
  end.

(* ------------------------------------------------------------------ *)
(** ** Sample inputs *)

(** Width 1, height 1, five frames declared; two whole frames and five
    stray bytes follow. *)
Definition sample_truncated : list byte :=
  SCHR ++ [x01; x00; x00; x00] ++ [x01; x00; x00; x00] ++ [x05; x00; x00; x00]
       ++ repeat x3f 32 ++ repeat x7f 5.

(** A file with the tag "ABCD". *)
Definition sample_abcd : list byte :=
  [x41; x42; x43; x44] ++ repeat x00 12.

(** The tag followed by six bytes only. *)
Definition sample_short_header : list byte :=
  SCHR ++ [x02; x00; x00; x00; x02; x00].

(** Width 2, height 3, frame count -1, then some payload. *)
Definition sample_negative_count : list byte :=
  SCHR ++ [x02; x00; x00; x00] ++ [x03; x00; x00; x00] ++ [xff; xff; xff; xff]
       ++ repeat x11 96.


(** Width -1, height 2, one frame declared. *)
Definition sample_negative_width : list byte :=
  SCHR ++ [xff; xff; xff; xff] ++ [x02; x00; x00; x00] ++ [x01; x00; x00; x00]
       ++ repeat x11 32.








(** A frame of width 1 and height 1 with the sample [1 + 0i], and one with
    the sample [0]. *)
Definition unit_frame : ndarray complex := mk_ndarray [1; 1] [(1, 0)%R].
Definition zero_frame : ndarray complex := mk_ndarray [1; 1] [(0, 0)%R].

(** Width 1, height 1, two frames declared and present: the two frames of
    [sample_truncated] without the stray bytes. *)
Definition sample_complete : list byte :=
  SCHR ++ [x01; x00; x00; x00] ++ [x01; x00; x00; x00] ++ [x02; x00; x00; x00]
       ++ repeat x3f 32.

(** The two frames that [sample_truncated] and [sample_complete] hold. *)
Definition sample_frames : list frame :=
  map (payload_frame LittleEndian 1 1 (file_payload sample_complete)) (seq 0 2).

(** A frame of width 2 and height 1 with the samples [0] and [1 + 0i]. *)
Definition pair_frame : ndarray complex := mk_ndarray [1; 2] [(0, 0)%R; (1, 0)%R].

(** A frame whose sample has exactly the threshold as its amplitude, and a
    frame whose finite sample [1.5 * 2^1023 * (1 + i)] has an amplitude
    above the largest [float64]. *)
Definition threshold_frame : ndarray complex := mk_ndarray [1; 1] [(double_1e_9, 0)%R].

Definition large_part_Z : Z := Eval vm_compute in (3 * 2 ^ 1022).

Definition large_part : R := IZR large_part_Z.

Definition overflowing_frame : ndarray complex :=
  mk_ndarray [1; 1] [(large_part, large_part)].

(* ------------------------------------------------------------------ *)
(** ** The definitions on concrete inputs *)

Example int32_little_endian : int32_of_bytes LittleEndian [x00; x01; x00; x00] = 256.
Proof. reflexivity. Qed.

Example int32_big_endian : int32_of_bytes BigEndian [x00; x00; x01; x00] = 256.
Proof. reflexivity. Qed.

Example int32_negative : int32_of_bytes LittleEndian [xfe; xff; xff; xff] = -2.
Proof. reflexivity. Qed.

Example unpack_short_buffer :
  struct.unpack_iii LittleEndian [x01; x00; x00; x00] = Raise StructError.
Proof. reflexivity. Qed.

Example reshape_size_mismatch :
  np.reshape (mk_ndarray [2] [(0, 0); (1, 1)]) [3; 1] = Raise ValueError.
Proof. reflexivity. Qed.

Example reshape_inferred :
  np.reshape (mk_ndarray [2] [(0, 0); (1, 1)]) [-1; 1] =
  Ok (mk_ndarray [2; 1] [(0, 0); (1, 1)]).
Proof. reflexivity. Qed.

Example select_picks : select [true; false; true] [1; 2; 3] = [1; 3].
Proof. reflexivity. Qed.

Example scatter_writes : scatter [true; false; true] [0; 0; 0] [7; 9] = [7; 0; 9].
Proof. reflexivity. Qed.

Example read_missing_file :
  read_trajectory LittleEndian (single_file "traj.bin" sample_truncated) "other.bin" =
    mk_outcome (Raise (SystemExit 1)) [MsgNotFound "other.bin"] 0.
Proof. reflexivity. Qed.

Example read_negative_width :
  read_trajectory LittleEndian (single_file "traj.bin" sample_negative_width) "traj.bin" =
    mk_outcome (Raise ValueError) [MsgLoading "traj.bin" (-1) 2 1] 16.
Proof. reflexivity. Qed.

(* ------------------------------------------------------------------ *)
(** ** Lemmas on the primitives *)

Lemma f_read_nonneg (n : Z) (s : state) :
  0 <= n < 2 ^ 63 ->
  f_read n s =
    (Ok (take (Z.to_nat n) (drop (offset s) (content s))),
     mk_state (content s)
       (offset s + length (take (Z.to_nat n) (drop (offset s) (content s))))%nat
       (stdout s)).
Proof.
  intros Hn. unfold f_read.
  destruct (Z.ltb_spec n (- 2 ^ 63)); [lia |].
  destruct (Z.leb_spec (2 ^ 63) n); [lia |]. cbn [orb].
  destruct (Z.ltb_spec n (-1)); [lia |].
  destruct (Z.eqb_spec n (-1)); [lia | reflexivity].
Qed.


Lemma f_read_overflow (n : Z) (s : state) :
  n < - 2 ^ 63 \/ 2 ^ 63 <= n -> f_read n s = (Raise OverflowError, s).
Proof.
  intros Hn. unfold f_read.
  destruct (Z.ltb_spec n (- 2 ^ 63)); [reflexivity |].
  destruct (Z.leb_spec (2 ^ 63) n); [reflexivity | lia].
Qed.

Lemma frombuffer_whole (bo : byteorder) (buf : list byte) (count : nat) :
  length buf = (16 * count)%nat ->
  np.frombuffer bo buf =
    Ok (mk_ndarray [Z.of_nat count]
          (map (fun k => np.complex128_of_bytes bo (take 16 (drop (16 * k) buf)))
               (seq 0 count))).
Proof.
  intros Hlen. unfold np.frombuffer. rewrite Hlen.
  replace (16 * count)%nat with (count * 16)%nat by lia.
  rewrite Nat.Div0.mod_mul, Nat.div_mul by lia. reflexivity.
Qed.

Lemma reshape_2d {T : Type} (arr : ndarray T) (height width : Z) :
  0 < height -> 0 < width ->
  Z.of_nat (length (data arr)) = width * height ->
  np.reshape arr [height; width] = Ok (mk_ndarray [height; width] (data arr)).
Proof.
  intros Hh Hw Hsize. unfold np.reshape.
  rewrite !filter_cons, !filter_nil.
  repeat case_decide; try lia. simpl.
  destruct (Z.eqb_spec (Z.of_nat (length (data arr))) (height * (width * 1)));
    [reflexivity | lia].
Qed.

(** A complete buffer decodes to the frame [frame_of_bytes] names. *)
Lemma decode_complete (bo : byteorder) (height width : Z) (buf : list byte) :
  0 < height -> 0 < width ->
  Z.of_nat (length buf) = width * height * 16 ->
  exists arr,
    np.frombuffer bo buf = Ok arr /\
    np.reshape arr [height; width] = Ok (frame_of_bytes bo height width buf).
Proof.
  intros Hh Hw Hlen.
  assert (Hcount : length buf = (16 * Z.to_nat (width * height))%nat) by lia.
  eexists. split; [apply (frombuffer_whole _ _ _ Hcount) |].
  rewrite reshape_2d; simpl; try assumption.
  - unfold frame_of_bytes. do 3 f_equal.
    rewrite Hcount. replace (16 * Z.to_nat (width * height))%nat
      with (Z.to_nat (width * height) * 16)%nat by lia.
    now rewrite Nat.div_mul.
  - rewrite length_map, length_seq. lia.
Qed.

(* ------------------------------------------------------------------ *)
(** ** The frame loop *)

Section FrameLoop.

Variable bo : byteorder.
Variables height width : Z.
Hypothesis height_pos : 0 < height.
Hypothesis width_pos : 0 < width.
Hypothesis size_small : width * height * 16 < 2 ^ 63.

Local Abbreviation size := (frame_size width height).

Lemma size_pos : (0 < size)%nat.
Proof. unfold frame_size. nia. Qed.

Lemma div_after_chunk (len : nat) :
  (size <= len)%nat -> ((len - size) / size = len / size - 1)%nat.
Proof.
  intros Hle. pose proof size_pos as Hpos.
  replace len with ((len - size) + 1 * size)%nat at 2 by lia.
  rewrite Nat.div_add by lia. lia.
Qed.

(** [k] iterations starting at index [i], from a state with [avail]
    complete frames left: [min k avail] frames are appended; when the
    file runs out first, the short read consumes what is left and the
    warning names the index of the frame that could not be read. *)
Lemma read_frames_run (k : nat) :
  forall (i : Z) (frames : list frame) (s : state),
    let rest := drop (offset s) (content s) in
    let avail := (length rest / size)%nat in
    read_frames bo (seqZ i (Z.of_nat k)) (width * height * 16) height width frames s =
      (Ok (frames ++
           map (fun j => frame_of_bytes bo height width
                           (take size (drop (j * size) rest)))
               (seq 0 (Nat.min k avail))),
       mk_state (content s)
         (offset s + (if (k <=? avail)%nat then k * size else length rest))%nat
         (stdout s ++
          (if (k <=? avail)%nat then [] else [MsgIncomplete (i + Z.of_nat avail)]))).
Proof.
  pose proof size_pos as Hpos.
  induction k as [| k IH]; intros i frames s rest avail.
  - simpl. unfold ret. rewrite !app_nil_r, Nat.add_0_r. now destruct s.
  - rewrite seqZ_cons by lia.
    replace (Z.pred (Z.of_nat (S k))) with (Z.of_nat k) by lia.
    cbn [read_frames]. unfold bind at 1.
    rewrite f_read_nonneg by (pose proof size_small; lia).
    fold rest. change (Z.to_nat (width * height * 16)) with size.
    destruct (Nat.lt_ge_cases (length rest) size) as [Hshort | Hfull].
    + (* short read *)
      assert (Havail : avail = 0%nat) by (apply Nat.div_small; exact Hshort).
      rewrite length_take, Nat.min_r by lia.
      destruct (Z.eqb_spec (Z.of_nat (length rest)) (width * height * 16)) as [He | _];
        [unfold frame_size in Hshort; lia |].
      cbn [negb]. unfold bind, print, ret. cbn [content offset stdout].
      rewrite Havail. cbn [Nat.min seq map Nat.leb]. rewrite app_nil_r, Z.add_0_r.
      reflexivity.
    + (* a complete frame *)
      assert (Hlen : length (take size rest) = size) by (rewrite length_take; lia).
      rewrite Hlen.
      destruct (Z.eqb_spec (Z.of_nat size) (width * height * 16)) as [_ | Hne];
        [| unfold frame_size in Hne; lia].
      cbn [negb].
      destruct (decode_complete bo height width (take size rest))
        as (arr & Harr & Hshape); try assumption.
      { rewrite Hlen. unfold frame_size. lia. }
      unfold bind at 1. unfold lift at 1. rewrite Harr.
      unfold bind at 1. unfold lift at 1. rewrite Hshape.
      rewrite IH. cbn [content offset stdout].
      rewrite <- (drop_drop (content s) size (offset s)). fold rest.
      rewrite length_drop, div_after_chunk by exact Hfull. fold avail.
      assert (Hav : (1 <= avail)%nat).
      { unfold avail. apply Nat.div_le_lower_bound; lia. }
      f_equal.
      * f_equal. rewrite <- app_assoc. f_equal.
        replace (Nat.min (S k) avail) with (S (Nat.min k (avail - 1))) by lia.
        cbn [seq map]. f_equal.
        rewrite <- seq_shift, map_map.
        apply map_ext. intros j. rewrite drop_drop. reflexivity.
      * destruct (Nat.leb_spec k (avail - 1)), (Nat.leb_spec (S k) avail);
          try lia; f_equal; try lia.
        do 3 f_equal. lia.
Qed.

End FrameLoop.

(* ------------------------------------------------------------------ *)
(** ** The frame loop on dimensions that are not positive *)





(* ------------------------------------------------------------------ *)
(** ** The header *)

Lemma unpack_iii_length (bo : byteorder) (buf : list byte) (fields : Z * Z * Z) :
  struct.unpack_iii bo buf = Ok fields -> length buf = 12%nat.
Proof.
  unfold struct.unpack_iii.
  destruct (Nat.eqb_spec (length buf) 12); [trivial | discriminate].
Qed.


(** After a good magic tag, the second read returns the header field. *)
Lemma read_open_file_magic (bo : byteorder) (filename : string) (bytes : list byte) :
  file_magic bytes = SCHR ->
  read_open_file bo filename (mk_state bytes 0 []) =
    bind (lift (struct.unpack_iii bo (file_header bytes)))
      (fun fields =>
         let '(width, height, frame_count) := fields in
         bind (print (MsgLoading filename width height frame_count))
           (fun _ =>
              bind (read_frames bo (seqZ 0 frame_count) (width * height * 16)
                      height width [])
                (fun frames => ret (width, height, frames))))
      (mk_state bytes (4 + length (file_header bytes)) []).
Proof.
  intros Hmagic. unfold read_open_file.
  unfold bind at 1. rewrite f_read_nonneg by lia. cbn [content offset stdout].
  change (take (Z.to_nat 4) (drop 0 bytes)) with (file_magic bytes).
  rewrite Hmagic, bool_decide_eq_false_2 by (intros Hne; now apply Hne).
  unfold bind at 1. rewrite f_read_nonneg by lia. cbn [content offset stdout].
  reflexivity.
Qed.

(** With a complete header the frame loop starts at offset 16, after the
    line that announces the file. *)
Lemma read_open_file_header (bo : byteorder) (filename : string) (bytes : list byte)
    (width height frame_count : Z) :
  file_magic bytes = SCHR ->
  struct.unpack_iii bo (file_header bytes) = Ok (width, height, frame_count) ->
  read_open_file bo filename (mk_state bytes 0 []) =
    match read_frames bo (seqZ 0 frame_count) (width * height * 16) height width []
            (mk_state bytes 16 [MsgLoading filename width height frame_count]) with
    | (Ok frames, s) => (Ok (width, height, frames), s)
    | (Raise e, s) => (Raise e, s)
    end.
Proof.
  intros Hmagic Hunpack. rewrite read_open_file_magic by exact Hmagic.
  rewrite (unpack_iii_length _ _ _ Hunpack).
  unfold bind at 1. unfold lift. rewrite Hunpack.
  unfold bind at 1. unfold print. cbn [content offset stdout app].
  unfold bind, ret. reflexivity.
Qed.

(* ------------------------------------------------------------------ *)
(** ** Properties of [read_trajectory] *)

Section ReaderProperties.

Variable bo : byteorder.
Variable fsys : string -> option (list byte).
Variable filename : string.
Variable bytes : list byte.
Hypothesis file_exists : fsys filename = Some bytes.

(** The outcome on a file with a well-formed header whose frames are of a
    size that can be read, in closed form. *)
Lemma read_trajectory_valid (width height frame_count : Z) :
  file_magic bytes = SCHR ->
  struct.unpack_iii bo (file_header bytes) = Ok (width, height, frame_count) ->
  0 < width -> 0 < height -> 0 <= frame_count ->
  width * height * 16 < 2 ^ 63 ->
  let size := frame_size width height in
  let avail := (length (file_payload bytes) / size)%nat in
  let count := Z.to_nat frame_count in
  read_trajectory bo fsys filename =
    mk_outcome
      (Ok (width, height,
           map (payload_frame bo height width (file_payload bytes))
               (seq 0 (Nat.min count avail))))
      (MsgLoading filename width height frame_count ::
       (if (count <=? avail)%nat then [] else [MsgIncomplete (Z.of_nat avail)]))
      (16 + (if (count <=? avail)%nat then count * size
             else length (file_payload bytes)))%nat.
Proof.
  intros Hmagic Hunpack Hw Hh Hn Hsmall size avail count.
  unfold read_trajectory. rewrite file_exists.
  rewrite (read_open_file_header _ _ _ _ _ _ Hmagic Hunpack).
  replace frame_count with (Z.of_nat count) at 1 by (unfold count; lia).
  rewrite read_frames_run by assumption.
  cbn [content offset stdout app]. fold (file_payload bytes). fold size. fold avail.
  reflexivity.
Qed.

(** A positive count with a frame size outside the range of a read: the
    first read of the loop is refused. *)
Lemma read_trajectory_oversize (width height frame_count : Z) :
  file_magic bytes = SCHR ->
  struct.unpack_iii bo (file_header bytes) = Ok (width, height, frame_count) ->
  0 < frame_count ->
  width * height * 16 < - 2 ^ 63 \/ 2 ^ 63 <= width * height * 16 ->
  read_trajectory bo fsys filename =
    mk_outcome (Raise OverflowError)
      [MsgLoading filename width height frame_count] 16.
Proof.
  intros Hmagic Hunpack Hn Hsize. unfold read_trajectory. rewrite file_exists.
  rewrite (read_open_file_header _ _ _ _ _ _ Hmagic Hunpack).
  rewrite seqZ_cons by lia. cbn [read_frames].
  unfold bind at 1. rewrite f_read_overflow by exact Hsize. reflexivity.
Qed.

(** A count that is not positive: the loop body never runs. *)
Lemma read_trajectory_no_iteration (width height frame_count : Z) :
  file_magic bytes = SCHR ->
  struct.unpack_iii bo (file_header bytes) = Ok (width, height, frame_count) ->
  frame_count <= 0 ->
  read_trajectory bo fsys filename =
    mk_outcome (Ok (width, height, []))
      [MsgLoading filename width height frame_count] 16.
Proof.
  intros Hmagic Hunpack Hn. unfold read_trajectory. rewrite file_exists.
  rewrite (read_open_file_header _ _ _ _ _ _ Hmagic Hunpack).
  unfold seqZ. replace (Z.to_nat frame_count) with 0%nat by lia.
  reflexivity.
Qed.

End ReaderProperties.



(** C4. On a file whose first four bytes are not "SCHR" (a file shorter
    than four bytes included) [read_trajectory] prints the format error and
    leaves through [sys.exit(1)]: nothing is returned, and nothing is read
    beyond the tag. *)
Theorem read_trajectory_bad_magic (bo : byteorder)
    (fsys : string -> option (list byte)) (filename : string) (bytes : list byte) :
  fsys filename = Some bytes ->
  file_magic bytes <> SCHR ->
  read_trajectory bo fsys filename =
    mk_outcome (Raise (SystemExit 1)) [MsgBadMagic] (Nat.min 4 (length bytes)).
Proof.
  intros Hfile Hmagic. unfold read_trajectory. rewrite Hfile.
  unfold read_open_file. unfold bind at 1.
  rewrite f_read_nonneg by lia. cbn [content offset stdout].
  change (take (Z.to_nat 4) (drop 0 bytes)) with (file_magic bytes).
  rewrite bool_decide_eq_true_2 by exact Hmagic.
  unfold bind, print, raise. cbn [content offset stdout app].
  unfold file_magic. rewrite length_take. reflexivity.
Qed.

(** C5. On a file that starts with "SCHR" and holds fewer than 12 further
    bytes, unpacking the header raises [struct.error]: the call fails,
    prints nothing and returns no trajectory. *)
Theorem read_trajectory_truncated_header (bo : byteorder)
    (fsys : string -> option (list byte)) (filename : string) (bytes : list byte) :
  fsys filename = Some bytes ->
  file_magic bytes = SCHR ->
  (length bytes - 4 < 12)%nat ->
  read_trajectory bo fsys filename =
    mk_outcome (Raise StructError) [] (length bytes).
Proof.
  intros Hfile Hmagic Hshort. unfold read_trajectory. rewrite Hfile.
  rewrite read_open_file_magic by exact Hmagic.
  assert (Hlen4 : (4 <= length bytes)%nat).
  { apply (f_equal length) in Hmagic. unfold file_magic in Hmagic.
    rewrite length_take in Hmagic. change (length SCHR) with 4%nat in Hmagic. lia. }
  assert (Hhdr : length (file_header bytes) = (length bytes - 4)%nat).
  { unfold file_header. rewrite length_take, length_drop. lia. }
  unfold bind, lift, struct.unpack_iii. rewrite Hhdr.
  destruct (Nat.eqb_spec (length bytes - 4) 12); [lia |].
  cbn [content offset stdout]. f_equal. lia.
Qed.

(** C10. On a file with magic "SCHR" and a complete header whose declared
    frame count is negative, the loop body never runs: [read_trajectory]
    returns the decoded width and height with an empty list of frames, and
    the file offset stays at the end of the 16-byte header. *)
Theorem read_trajectory_negative_count (bo : byteorder)
    (fsys : string -> option (list byte)) (filename : string) (bytes : list byte)
    (width height frame_count : Z) :
  fsys filename = Some bytes ->
  file_magic bytes = SCHR ->
  struct.unpack_iii bo (file_header bytes) = Ok (width, height, frame_count) ->
  frame_count < 0 ->
  read_trajectory bo fsys filename =
    mk_outcome (Ok (width, height, []))
      [MsgLoading filename width height frame_count] 16.
Proof.
  intros Hfile Hmagic Hunpack Hneg. unfold read_trajectory. rewrite Hfile.
  rewrite (read_open_file_header _ _ _ _ _ _ Hmagic Hunpack).
  unfold seqZ. replace (Z.to_nat frame_count) with 0%nat by lia.
  reflexivity.
Qed.


(* ------------------------------------------------------------------ *)
(** ** Running the numpy operations *)

(** During a call the store has the form [s ++ l]: the objects [s] that
    existed before the call, followed by those the call created. *)

Lemma bind_run {St A B : Type} (m : M St A) (k : A -> M St B) (s s' : St) (a : A) :
  m s = (Ok a, s') -> bind m k s = k a s'.
Proof. intros Hm. unfold bind. now rewrite Hm. Qed.

Lemma lookup_local (s l : store) (j : nat) :
  (s ++ l) !! (length s + j)%nat = l !! j.
Proof. rewrite lookup_app_r by lia. f_equal. lia. Qed.

Lemma lookup_frame (s l : store) (r : ref) (v : value) :
  s !! r = Some v -> (s ++ l) !! r = Some v.
Proof. apply lookup_app_l_Some. Qed.

Lemma insert_local (s l : store) (j : nat) (v : value) :
  <[(length s + j)%nat := v]> (s ++ l) = s ++ <[j := v]> l.
Proof. rewrite insert_app_r_alt by lia. do 2 f_equal. lia. Qed.

Lemma alloc_local (s l : store) (v : value) :
  alloc v (s ++ l) = (Ok (length s + length l)%nat, s ++ (l ++ [v])).
Proof. unfold alloc. now rewrite length_app, app_assoc. Qed.

Lemma load_run (S : store) (r : ref) (v : value) :
  S !! r = Some v -> load r S = (Ok v, S).
Proof. intros H. unfold load. now rewrite H. Qed.

Lemma load_float_run (S : store) (r : ref) (a : ndarray R) :
  S !! r = Some (VFloat a) -> load_float r S = (Ok a, S).
Proof. intros H. unfold load_float. now rewrite (bind_run _ _ _ _ _ (load_run _ _ _ H)). Qed.

Lemma load_complex_run (S : store) (r : ref) (a : ndarray complex) :
  S !! r = Some (VComplex a) -> load_complex r S = (Ok a, S).
Proof. intros H. unfold load_complex. now rewrite (bind_run _ _ _ _ _ (load_run _ _ _ H)). Qed.

Lemma load_xfloat_run (S : store) (r : ref) (a : ndarray xfloat) :
  S !! r = Some (VFloatInf a) -> load_xfloat r S = (Ok a, S).
Proof. intros H. unfold load_xfloat. now rewrite (bind_run _ _ _ _ _ (load_run _ _ _ H)). Qed.

Lemma load_bool_run (S : store) (r : ref) (a : ndarray bool) :
  S !! r = Some (VBool a) -> load_bool r S = (Ok a, S).
Proof. intros H. unfold load_bool. now rewrite (bind_run _ _ _ _ _ (load_run _ _ _ H)). Qed.

Section Operations.

Variables s l : store.

Local Abbreviation fresh := (length s + length l)%nat.

Lemma map_float_local (f : R -> R) (x : ref) (a : ndarray R) :
  (s ++ l) !! x = Some (VFloat a) ->
  np.map_float f x (s ++ l) =
    (Ok fresh, s ++ (l ++ [VFloat (mk_ndarray (shape a) (map f (data a)))])).
Proof.
  intros Hx. unfold np.map_float.
  rewrite (bind_run _ _ _ _ _ (load_float_run _ _ _ Hx)). apply alloc_local.
Qed.

Lemma zip_float_local (f : R -> R -> R) (x y : ref) (a b : ndarray R) :
  (s ++ l) !! x = Some (VFloat a) ->
  (s ++ l) !! y = Some (VFloat b) ->
  shape a = shape b ->
  np.zip_float f x y (s ++ l) =
    (Ok fresh,
     s ++ (l ++ [VFloat (mk_ndarray (shape a) (zip_with f (data a) (data b)))])).
Proof.
  intros Hx Hy Hshape. unfold np.zip_float.
  rewrite (bind_run _ _ _ _ _ (load_float_run _ _ _ Hx)).
  rewrite (bind_run _ _ _ _ _ (load_float_run _ _ _ Hy)).
  rewrite decide_True by exact Hshape. apply alloc_local.
Qed.

Lemma abs_local (z : ref) (a : ndarray complex) :
  (s ++ l) !! z = Some (VComplex a) ->
  np.abs z (s ++ l) =
    (Ok fresh, s ++ (l ++ [VFloatInf (mk_ndarray (shape a) (map Cabs (data a)))])).
Proof.
  intros Hz. unfold np.abs.
  rewrite (bind_run _ _ _ _ _ (load_complex_run _ _ _ Hz)). apply alloc_local.
Qed.

Lemma greater_local (x : ref) (c : R) (a : ndarray xfloat) :
  (s ++ l) !! x = Some (VFloatInf a) ->
  np.greater x c (s ++ l) =
    (Ok fresh,
     s ++ (l ++ [VBool (mk_ndarray (shape a) (map (fun v => xgtb v c) (data a)))])).
Proof.
  intros Hx. unfold np.greater.
  rewrite (bind_run _ _ _ _ _ (load_xfloat_run _ _ _ Hx)). apply alloc_local.
Qed.

Lemma arctan_local (x : ref) (a : ndarray xfloat) :
  (s ++ l) !! x = Some (VFloatInf a) ->
  np.arctan x (s ++ l) =
    (Ok fresh, s ++ (l ++ [VFloat (mk_ndarray (shape a) (map xatan (data a)))])).
Proof.
  intros Hx. unfold np.arctan.
  rewrite (bind_run _ _ _ _ _ (load_xfloat_run _ _ _ Hx)). apply alloc_local.
Qed.

Lemma divide_local (x y : ref) (a : ndarray R) (b : ndarray xfloat) :
  (s ++ l) !! x = Some (VFloat a) ->
  (s ++ l) !! y = Some (VFloatInf b) ->
  shape a = shape b ->
  np.divide x y (s ++ l) =
    (Ok fresh,
     s ++ (l ++ [VFloat (mk_ndarray (shape a) (zip_with xdiv (data a) (data b)))])).
Proof.
  intros Hx Hy Hshape. unfold np.divide.
  rewrite (bind_run _ _ _ _ _ (load_float_run _ _ _ Hx)).
  rewrite (bind_run _ _ _ _ _ (load_xfloat_run _ _ _ Hy)).
  rewrite decide_True by exact Hshape. apply alloc_local.
Qed.

Lemma zeros_like_xfloat_local (x : ref) (a : ndarray xfloat) :
  (s ++ l) !! x = Some (VFloatInf a) ->
  np.zeros_like x (s ++ l) =
    (Ok fresh,
     s ++ (l ++ [VFloat (mk_ndarray (shape a) (map (fun _ => 0%R) (data a)))])).
Proof.
  intros Hx. unfold np.zeros_like.
  rewrite (bind_run _ _ _ _ _ (load_run _ _ _ Hx)). apply alloc_local.
Qed.

Lemma getitem_xfloat_local (x mask : ref) (a : ndarray xfloat) (m : ndarray bool) :
  (s ++ l) !! x = Some (VFloatInf a) ->
  (s ++ l) !! mask = Some (VBool m) ->
  shape a = shape m ->
  np.getitem x mask (s ++ l) =
    (Ok fresh,
     s ++ (l ++ [VFloatInf (mk_ndarray [Z.of_nat (length (select (data m) (data a)))]
                              (select (data m) (data a)))])).
Proof.
  intros Hx Hm Hshape. unfold np.getitem.
  rewrite (bind_run _ _ _ _ _ (load_run _ _ _ Hx)).
  rewrite (bind_run _ _ _ _ _ (load_bool_run _ _ _ Hm)).
  rewrite decide_True by exact Hshape. apply alloc_local.
Qed.

Lemma zeros_like_float_local (x : ref) (a : ndarray R) :
  (s ++ l) !! x = Some (VFloat a) ->
  np.zeros_like x (s ++ l) =
    (Ok fresh,
     s ++ (l ++ [VFloat (mk_ndarray (shape a) (map (fun _ => 0%R) (data a)))])).
Proof.
  intros Hx. unfold np.zeros_like.
  rewrite (bind_run _ _ _ _ _ (load_run _ _ _ Hx)). apply alloc_local.
Qed.

Lemma zeros_like_complex_local (x : ref) (a : ndarray complex) :
  (s ++ l) !! x = Some (VComplex a) ->
  np.zeros_like x (s ++ l) =
    (Ok fresh,
     s ++ (l ++ [VComplex (mk_ndarray (shape a) (map (fun _ => (0%R, 0%R)) (data a)))])).
Proof.
  intros Hx. unfold np.zeros_like.
  rewrite (bind_run _ _ _ _ _ (load_run _ _ _ Hx)). apply alloc_local.
Qed.

Lemma getitem_float_local (x mask : ref) (a : ndarray R) (m : ndarray bool) :
  (s ++ l) !! x = Some (VFloat a) ->
  (s ++ l) !! mask = Some (VBool m) ->
  shape a = shape m ->
  np.getitem x mask (s ++ l) =
    (Ok fresh,
     s ++ (l ++ [VFloat (mk_ndarray [Z.of_nat (length (select (data m) (data a)))]
                           (select (data m) (data a)))])).
Proof.
  intros Hx Hm Hshape. unfold np.getitem.
  rewrite (bind_run _ _ _ _ _ (load_run _ _ _ Hx)).
  rewrite (bind_run _ _ _ _ _ (load_bool_run _ _ _ Hm)).
  rewrite decide_True by exact Hshape. apply alloc_local.
Qed.

Lemma getitem_complex_local (x mask : ref) (a : ndarray complex) (m : ndarray bool) :
  (s ++ l) !! x = Some (VComplex a) ->
  (s ++ l) !! mask = Some (VBool m) ->
  shape a = shape m ->
  np.getitem x mask (s ++ l) =
    (Ok fresh,
     s ++ (l ++ [VComplex (mk_ndarray [Z.of_nat (length (select (data m) (data a)))]
                             (select (data m) (data a)))])).
Proof.
  intros Hx Hm Hshape. unfold np.getitem.
  rewrite (bind_run _ _ _ _ _ (load_run _ _ _ Hx)).
  rewrite (bind_run _ _ _ _ _ (load_bool_run _ _ _ Hm)).
  rewrite decide_True by exact Hshape. apply alloc_local.
Qed.

(** A masked assignment to an array created by the call changes that
    array in place. *)
Lemma setitem_float_local (j : nat) (mask vals : ref) (a b : ndarray R)
    (m : ndarray bool) :
  (s ++ l) !! (length s + j)%nat = Some (VFloat a) ->
  (s ++ l) !! mask = Some (VBool m) ->
  (s ++ l) !! vals = Some (VFloat b) ->
  shape a = shape m ->
  length (data b) = length (select (data m) (data a)) ->
  np.setitem (length s + j)%nat mask vals (s ++ l) =
    (Ok tt,
     s ++ <[j := VFloat (mk_ndarray (shape a) (scatter (data m) (data a) (data b)))]> l).
Proof.
  intros Hx Hm Hv Hshape Hlen. unfold np.setitem.
  rewrite (bind_run _ _ _ _ _ (load_run _ _ _ Hx)).
  rewrite (bind_run _ _ _ _ _ (load_bool_run _ _ _ Hm)).
  rewrite (bind_run _ _ _ _ _ (load_run _ _ _ Hv)).
  rewrite decide_True by exact Hshape. rewrite decide_True by exact Hlen.
  unfold update. now rewrite insert_local.
Qed.

Lemma setitem_complex_local (j : nat) (mask vals : ref) (a b : ndarray complex)
    (m : ndarray bool) :
  (s ++ l) !! (length s + j)%nat = Some (VComplex a) ->
  (s ++ l) !! mask = Some (VBool m) ->
  (s ++ l) !! vals = Some (VComplex b) ->
  shape a = shape m ->
  length (data b) = length (select (data m) (data a)) ->
  np.setitem (length s + j)%nat mask vals (s ++ l) =
    (Ok tt,
     s ++ <[j := VComplex (mk_ndarray (shape a) (scatter (data m) (data a) (data b)))]> l).
Proof.
  intros Hx Hm Hv Hshape Hlen. unfold np.setitem.
  rewrite (bind_run _ _ _ _ _ (load_run _ _ _ Hx)).
  rewrite (bind_run _ _ _ _ _ (load_bool_run _ _ _ Hm)).
  rewrite (bind_run _ _ _ _ _ (load_run _ _ _ Hv)).
  rewrite decide_True by exact Hshape. rewrite decide_True by exact Hlen.
  unfold update. now rewrite insert_local.
Qed.

Lemma multiply_complex_float_local (z f : ref) (a : ndarray complex) (b : ndarray R) :
  (s ++ l) !! z = Some (VComplex a) ->
  (s ++ l) !! f = Some (VFloat b) ->
  shape a = shape b ->
  np.multiply_complex_float z f (s ++ l) =
    (Ok fresh,
     s ++ (l ++ [VComplex (mk_ndarray (shape a)
                   (zip_with (fun c x => Cmult c (x, 0%R)) (data a) (data b)))])).
Proof.
  intros Hz Hf Hshape. unfold np.multiply_complex_float.
  rewrite (bind_run _ _ _ _ _ (load_complex_run _ _ _ Hz)).
  rewrite (bind_run _ _ _ _ _ (load_float_run _ _ _ Hf)).
  rewrite decide_True by exact Hshape. apply alloc_local.
Qed.

Lemma real_local (z : ref) (a : ndarray complex) :
  (s ++ l) !! z = Some (VComplex a) ->
  np.real z (s ++ l) =
    (Ok fresh, s ++ (l ++ [VFloat (mk_ndarray (shape a) (map fst (data a)))])).
Proof.
  intros Hz. unfold np.real.
  rewrite (bind_run _ _ _ _ _ (load_complex_run _ _ _ Hz)). apply alloc_local.
Qed.

Lemma imag_local (z : ref) (a : ndarray complex) :
  (s ++ l) !! z = Some (VComplex a) ->
  np.imag z (s ++ l) =
    (Ok fresh, s ++ (l ++ [VFloat (mk_ndarray (shape a) (map snd (data a)))])).
Proof.
  intros Hz. unfold np.imag.
  rewrite (bind_run _ _ _ _ _ (load_complex_run _ _ _ Hz)). apply alloc_local.
Qed.

Lemma dstack_local (r g b : ref) (ar ag ab : ndarray R) :
  (s ++ l) !! r = Some (VFloat ar) ->
  (s ++ l) !! g = Some (VFloat ag) ->
  (s ++ l) !! b = Some (VFloat ab) ->
  shape ar = shape ag -> shape ar = shape ab ->
  np.dstack r g b (s ++ l) =
    (Ok fresh,
     s ++ (l ++ [VFloat (mk_ndarray (np.dstack_shape (shape ar))
                           (np.interleave3 (data ar) (data ag) (data ab)))])).
Proof.
  intros Hr Hg Hb Hrg Hrb. unfold np.dstack.
  rewrite (bind_run _ _ _ _ _ (load_float_run _ _ _ Hr)).
  rewrite (bind_run _ _ _ _ _ (load_float_run _ _ _ Hg)).
  rewrite (bind_run _ _ _ _ _ (load_float_run _ _ _ Hb)).
  rewrite decide_True by (split; assumption). apply alloc_local.
Qed.

End Operations.

(* ------------------------------------------------------------------ *)
(** ** Masks and elementwise operations on lists *)

Lemma select_map {A B : Type} (f : A -> B) (mask : list bool) (xs : list A) :
  select mask (map f xs) = map f (select mask xs).
Proof.
  revert xs. induction mask as [| b mask IH]; intros [| x xs]; simpl; try reflexivity.
  destruct b; simpl; now rewrite IH.
Qed.

Lemma scatter_select_map {A B : Type} (p : A -> bool) (f g : A -> B) (xs : list A) :
  scatter (map p xs) (map g xs) (map f (select (map p xs) xs)) =
  map (fun x => if p x then f x else g x) xs.
Proof.
  induction xs as [| x xs IH]; simpl; [reflexivity |].
  destruct (p x); simpl; now rewrite IH.
Qed.

Lemma zip_with_map_map {A B C D : Type} (f : B -> C -> D) (g : A -> B) (h : A -> C)
    (xs : list A) :
  zip_with f (map g xs) (map h xs) = map (fun x => f (g x) (h x)) xs.
Proof. induction xs as [| x xs IH]; simpl; [reflexivity | now rewrite IH]. Qed.

Lemma zip_with_id_map {A C D : Type} (f : A -> C -> D) (h : A -> C) (xs : list A) :
  zip_with f xs (map h xs) = map (fun x => f x (h x)) xs.
Proof. induction xs as [| x xs IH]; simpl; [reflexivity | now rewrite IH]. Qed.

Lemma interleave3_map {A : Type} (r g b : A -> R) (xs : list A) :
  np.interleave3 (map r xs) (map g xs) (map b xs) =
  flat_map (fun x => [r x; g x; b x]) xs.
Proof. induction xs as [| x xs IH]; simpl; [reflexivity | now rewrite IH]. Qed.

Lemma map_flat_map {A B C : Type} (f : B -> C) (g : A -> list B) (xs : list A) :
  map f (flat_map g xs) = flat_map (fun x => map f (g x)) xs.
Proof.
  induction xs as [| x xs IH]; simpl; [reflexivity |].
  now rewrite map_app, IH.
Qed.

Lemma flat_map_pointwise {A B : Type} (f g : A -> list B) (xs : list A) :
  (forall x, f x = g x) -> flat_map f xs = flat_map g xs.
Proof.
  intros Hfg. induction xs as [| x xs IH]; simpl; [reflexivity |].
  now rewrite Hfg, IH.
Qed.

(* ------------------------------------------------------------------ *)
(** ** Running [complex_to_rgb] *)

Ltac lookup_tac :=
  first [ rewrite lookup_local; reflexivity
        | apply lookup_frame; eassumption ].

Ltac side_tac :=
  first [ lookup_tac
        | reflexivity
        | cbn [shape data]; rewrite ?select_map, ?length_map; reflexivity ].

Ltac op_tac :=
  first [ solve [eapply abs_local; side_tac]
        | solve [eapply greater_local; side_tac]
        | solve [eapply arctan_local; side_tac]
        | solve [eapply divide_local; side_tac]
        | solve [eapply zeros_like_xfloat_local; side_tac]
        | solve [eapply getitem_xfloat_local; side_tac]
        | solve [eapply zeros_like_float_local; side_tac]
        | solve [eapply zeros_like_complex_local; side_tac]
        | solve [eapply getitem_float_local; side_tac]
        | solve [eapply getitem_complex_local; side_tac]
        | solve [eapply setitem_float_local; side_tac]
        | solve [eapply setitem_complex_local; side_tac]
        | solve [eapply map_float_local; side_tac]
        | solve [eapply zip_float_local; side_tac]
        | solve [eapply multiply_complex_float_local; side_tac]
        | solve [eapply real_local; side_tac]
        | solve [eapply imag_local; side_tac]
        | solve [eapply dstack_local; side_tac] ].

Ltac normal_tac :=
  cbn [length app shape data insert list_insert];
  rewrite ?select_map, ?map_map, ?length_map, ?scatter_select_map,
    ?zip_with_map_map, ?zip_with_id_map, ?interleave3_map, ?map_flat_map.

Ltac step_tac := erewrite bind_run by op_tac; normal_tac.

(** The channels of one sample that the array operations amount to are
    those of [sample_channels]. *)
Lemma array_channels (c : complex) :
  let lum := if xgtb (Cabs c) double_1e_9 then (xatan (Cabs c) / PI)%R else 0%R in
  let scaled :=
    if xgtb (Cabs c) double_1e_9 then Cmult c (xdiv (0.5 * lum) (Cabs c), 0%R)
    else (0%R, 0%R) in
  [lum + 1.5748 * snd scaled;
   lum - 0.1873 * fst scaled - 0.4681 * snd scaled;
   lum + 1.8556 * fst scaled]%R =
  (let '(r, g, b) := sample_channels c in [r; g; b]).
Proof.
  destruct c as [x y]. unfold sample_channels.
  destruct (xgtb (Cabs (x, y)) double_1e_9); cbn zeta.
  - unfold Cmult. cbn [fst snd]. repeat f_equal; ring.
  - cbn [fst snd]. repeat f_equal; ring.
Qed.

Lemma amplitude_bounds (x y : R) :
  let a := sqrt (x * x + y * y) in
  (0 <= a /\ - a <= x <= a /\ - a <= y <= a)%R.
Proof.
  intros a.
  assert (Hsq : (0 <= x * x + y * y)%R) by nra.
  pose proof (sqrt_pos (x * x + y * y)) as Hpos. fold a in Hpos.
  pose proof (sqrt_sqrt _ Hsq) as Haa. fold a in Haa.
  repeat split; nra.
Qed.

Lemma luminance_bounds (a : R) :
  (0 < a)%R -> (0 < atan a / PI < 1 / 2)%R.
Proof.
  intros Ha. pose proof PI_RGT_0 as Hpi.
  pose proof (atan_increasing 0 a Ha) as Hinc. rewrite atan_0 in Hinc.
  pose proof (atan_bound a) as [_ Hup].
  assert (Hinv : (0 < / PI)%R) by (apply Rinv_0_lt_compat; exact Hpi).
  assert (Hone : (PI * / PI = 1)%R) by (apply Rinv_r; lra).
  unfold Rdiv. split; nra.
Qed.

Lemma double_1e_9_pos : (1e-9 < double_1e_9)%R.
Proof. unfold double_1e_9. lra. Qed.

Lemma overflow_bound_large : (1 < overflow_bound)%R.
Proof. unfold overflow_bound, overflow_bound_Z. lra. Qed.

(** The channels of a finite amplitude [a > 0]. *)
Lemma finite_channels_inside (x y : R) :
  let a := sqrt (x * x + y * y) in
  let lum := (atan a / PI)%R in
  let scale := (0.5 * lum / a)%R in
  let u := (scale * x)%R in
  let v := (scale * y)%R in
  (0 < a)%R ->
  (0 < lum + 1.5748 * v < 1)%R /\
  (0 < lum - 0.1873 * u - 0.4681 * v < 1)%R /\
  (0 < lum + 1.8556 * u < 1)%R.
Proof.
  intros a lum scale u v Ha.
  destruct (amplitude_bounds x y) as (_ & Hx & Hy). fold a in Hx, Hy.
  destruct (luminance_bounds a Ha) as [Hlum0 Hlum1]. fold lum in Hlum0, Hlum1.
  assert (Hinv : (0 < / a)%R) by (apply Rinv_0_lt_compat; exact Ha).
  assert (Hone : (a * / a = 1)%R) by (apply Rinv_r; lra).
  set (tx := (x * / a)%R). set (ty := (y * / a)%R).
  assert (Htx : (-1 <= tx <= 1)%R) by (unfold tx; split; nra).
  assert (Hty : (-1 <= ty <= 1)%R) by (unfold ty; split; nra).
  assert (Hu : u = (0.5 * (lum * tx))%R) by (unfold u, scale, tx; field; lra).
  assert (Hv : v = (0.5 * (lum * ty))%R) by (unfold v, scale, ty; field; lra).
  assert (Hltx : (- lum <= lum * tx <= lum)%R) by (split; nra).
  assert (Hlty : (- lum <= lum * ty <= lum)%R) by (split; nra).
  rewrite Hu, Hv. repeat split; lra.
Qed.

(** Before clipping every channel already lies in [0, 1]: below the
    threshold it is 0, on overflow 1/2, and in between the matrix keeps it
    strictly inside. *)
Lemma sample_channels_inside (c : complex) (r g b : R) :
  sample_channels c = (r, g, b) ->
  (0 <= r <= 1)%R /\ (0 <= g <= 1)%R /\ (0 <= b <= 1)%R.
Proof.
  destruct c as [x y]. unfold sample_channels, Cabs. cbn [fst snd].
  set (a := sqrt (x * x + y * y)).
  destruct (Rlt_dec a overflow_bound) as [Hfin | Hinf]; cbn [xgtb xatan xdiv].
  - unfold Rgtb. destruct (Rgt_dec a double_1e_9) as [Hgt | Hle].
    + intros Hpix. injection Hpix as <- <- <-.
      pose proof double_1e_9_pos as Hth.
      destruct (finite_channels_inside x y) as (Hr & Hg & Hb); [fold a; lra |].
      fold a in Hr, Hg, Hb. lra.
    + intros Hpix. injection Hpix as <- <- <-. lra.
  - intros Hpix. injection Hpix as <- <- <-.
    pose proof PI_RGT_0 as Hpi.
    replace (PI / 2 / PI)%R with (/ 2)%R by (field; lra). lra.
Qed.

Lemma sample_to_rgb_channels (c : complex) : sample_to_rgb c = sample_channels c.
Proof.
  unfold sample_to_rgb. destruct (sample_channels c) as [[r g] b] eqn:Hpix.
  destruct (sample_channels_inside c r g b Hpix) as (Hr & Hg & Hb).
  unfold clip01. rewrite !Rmax_left, !Rmin_left by lra. reflexivity.
Qed.

Lemma rgb_stack_image (zarr : ndarray complex) : rgb_stack zarr = rgb_image zarr.
Proof.
  unfold rgb_stack, rgb_image. f_equal. apply flat_map_pointwise. intros c.
  now rewrite sample_to_rgb_channels.
Qed.

(** A call of [complex_to_rgb] on a complex array leaves the objects that
    existed before the call as they were; the last two arrays it creates
    are the stack [rgb] and the array [np.clip] makes of it, to which it
    returns a reference. *)
Lemma complex_to_rgb_run_stack (s : store) (z : ref) (zarr : ndarray complex) :
  s !! z = Some (VComplex zarr) ->
  exists created : store,
    complex_to_rgb z s =
      (Ok (length s + length created + 1)%nat,
       s ++ created ++ [VFloat (rgb_stack zarr); VFloat (rgb_image zarr)]).
Proof.
  intros Hz.
  enough (Hrun : exists created : store,
             complex_to_rgb z (s ++ []) =
               (Ok (length s + length created + 1)%nat,
                s ++ created ++ [VFloat (rgb_stack zarr); VFloat (rgb_image zarr)])).
  { destruct Hrun as [created Hrun]. rewrite app_nil_r in Hrun. eauto. }
  unfold complex_to_rgb.
  unfold np.divide_scalar, np.multiply_scalar, np.add, np.subtract, np.clip.
  do 26 step_tac.
  erewrite map_float_local by side_tac. normal_tac.
  lazymatch goal with
  | |- exists created, (_, s ++ ?L) = _ => exists (take 23 L)
  end.
  cbn [firstn length app].
  replace (length s + 23 + 1)%nat with (length s + 24)%nat by lia.
  do 2 f_equal. repeat (f_equal; []). f_equal; [| f_equal]; f_equal.
  - unfold rgb_stack. f_equal.
    apply flat_map_pointwise. intros c. exact (array_channels c).
  - unfold rgb_image. f_equal.
    apply flat_map_pointwise. intros c. cbn [map].
    pose proof (array_channels c) as Hc. cbv zeta in Hc.
    unfold sample_to_rgb. destruct (sample_channels c) as [[r g] b].
    injection Hc as -> -> ->. reflexivity.
Qed.

(** In particular it returns a reference to a new array that holds the
    image of the input. *)
Lemma complex_to_rgb_run (s : store) (z : ref) (zarr : ndarray complex) :
  s !! z = Some (VComplex zarr) ->
  exists created : store,
    complex_to_rgb z s =
      (Ok (length s + length created)%nat,
       s ++ created ++ [VFloat (rgb_image zarr)]).
Proof.
  intros Hz. destruct (complex_to_rgb_run_stack s z zarr Hz) as [created Hrun].
  exists (created ++ [VFloat (rgb_stack zarr)]).
  rewrite Hrun, length_app, <- app_assoc. cbn [length app].
  now rewrite Nat.add_assoc.
Qed.

Lemma image_of_call_run (s : store) (z : ref) (zarr : ndarray complex) :
  s !! z = Some (VComplex zarr) ->
  image_of_call z s = Some (rgb_image zarr).
Proof.
  intros Hz. destruct (complex_to_rgb_run s z zarr Hz) as [created Hrun].
  unfold image_of_call. rewrite Hrun.
  rewrite lookup_local. rewrite (list_lookup_middle created [] _ (length created) eq_refl).
  reflexivity.
Qed.

Lemma pixel_at_rgb_image (zarr : ndarray complex) (i : nat) (c : complex) :
  data zarr !! i = Some c ->
  pixel_at (rgb_image zarr) i = Some (sample_to_rgb c).
Proof.
  unfold pixel_at, rgb_image. cbn [data]. generalize (data zarr) as cs.
  intros cs. revert i. induction cs as [| c0 cs IH]; intros i Hi.
  - now rewrite lookup_nil in Hi.
  - cbn [flat_map]. destruct i as [| i].
    + cbn in Hi. injection Hi as ->.
      destruct (sample_to_rgb c) as [[r g] b]. reflexivity.
    + cbn in Hi. specialize (IH i Hi).
      replace (3 * S i)%nat with (3 + 3 * i)%nat by lia.
      destruct (sample_to_rgb c0) as [[r0 g0] b0].
      cbn [app]. rewrite <- !Nat.add_assoc. exact IH.
Qed.

Lemma clip01_bounds (c : R) : (0 <= clip01 c <= 1)%R.
Proof.
  unfold clip01, Rmin, Rmax.
  destruct (Rle_dec c 0), (Rle_dec _ 1); lra.
Qed.

Lemma clip01_id (c : R) : (0 <= c <= 1)%R -> clip01 c = c.
Proof.
  intros Hc. unfold clip01. rewrite Rmax_left, Rmin_left by lra. reflexivity.
Qed.

(* ------------------------------------------------------------------ *)
(** ** Properties of [complex_to_rgb] *)


(** C7. For a sample of the input whose amplitude is at most 1e-9, the
    pixel of the returned image is exactly [(0, 0, 0)]. *)
Theorem complex_to_rgb_black (s : store) (z : ref) (zarr : ndarray complex)
    (i : nat) (x y : R) :
  s !! z = Some (VComplex zarr) ->
  data zarr !! i = Some (x, y) ->
  (sqrt (x * x + y * y) <= 1e-9)%R ->
  exists image : ndarray R,
    image_of_call z s = Some image /\
    pixel_at image i = Some (0, 0, 0)%R.
Proof.
  intros Hz Hi Hle.
  exists (rgb_image zarr). split; [apply image_of_call_run; exact Hz |].
  rewrite (pixel_at_rgb_image _ _ _ Hi).
  unfold sample_to_rgb, sample_channels, Cabs. cbn [fst snd].
  pose proof overflow_bound_large as Hlarge. pose proof double_1e_9_pos as Hth.
  destruct (Rlt_dec (sqrt (x * x + y * y)) overflow_bound) as [_ | Hinf]; [| lra].
  cbn [xgtb]. unfold Rgtb.
  destruct (Rgt_dec (sqrt (x * x + y * y)) double_1e_9) as [Hgt | _]; [lra |].
  rewrite !clip01_id by lra. reflexivity.
Qed.

(** C8. For every sample of the input, the three channels of its pixel in
    the returned image lie in the closed interval [0, 1]. *)
Theorem complex_to_rgb_range (s : store) (z : ref) (zarr : ndarray complex)
    (i : nat) (c : complex) :
  s !! z = Some (VComplex zarr) ->
  data zarr !! i = Some c ->
  exists (image : ndarray R) (r g b : R),
    image_of_call z s = Some image /\
    pixel_at image i = Some (r, g, b) /\
    (0 <= r <= 1)%R /\ (0 <= g <= 1)%R /\ (0 <= b <= 1)%R.
Proof.
  intros Hz Hi.
  exists (rgb_image zarr).
  destruct (sample_to_rgb c) as [[r g] b] eqn:Hpix.
  exists r, g, b. split; [apply image_of_call_run; exact Hz |].
  split; [rewrite (pixel_at_rgb_image _ _ _ Hi); now rewrite Hpix |].
  unfold sample_to_rgb in Hpix. destruct (sample_channels c) as [[r0 g0] b0].
  injection Hpix as <- <- <-. auto using clip01_bounds.
Qed.

(** C9. Two calls of [complex_to_rgb] on equal input frames, from any two
    stores and through any two references, both return, and return equal
    images; a call leaves every object that was in the store before it,
    the input frame among them, as it was. *)
Theorem complex_to_rgb_pure (s1 s2 : store) (z1 z2 : ref) (zarr : ndarray complex) :
  s1 !! z1 = Some (VComplex zarr) ->
  s2 !! z2 = Some (VComplex zarr) ->
  exists (out1 out2 : ref) (s1' s2' : store) (image : ndarray R),
    complex_to_rgb z1 s1 = (Ok out1, s1') /\
    complex_to_rgb z2 s2 = (Ok out2, s2') /\
    s1' !! out1 = Some (VFloat image) /\
    s2' !! out2 = Some (VFloat image) /\
    s1' !! z1 = Some (VComplex zarr) /\
    (forall (r : ref) (v : value), s1 !! r = Some v -> s1' !! r = Some v).
Proof.
  intros Hz1 Hz2.
  destruct (complex_to_rgb_run s1 z1 zarr Hz1) as [c1 Hrun1].
  destruct (complex_to_rgb_run s2 z2 zarr Hz2) as [c2 Hrun2].
  eexists _, _, _, _, (rgb_image zarr).
  split; [exact Hrun1 |]. split; [exact Hrun2 |].
  split; [| split; [| split]].
  - rewrite lookup_local. apply list_lookup_middle. reflexivity.
  - rewrite lookup_local. apply list_lookup_middle. reflexivity.
  - apply lookup_frame. exact Hz1.
  - intros r v Hr. apply lookup_frame. exact Hr.
Qed.

(* ------------------------------------------------------------------ *)
(** ** The properties at the sample inputs *)





Lemma read_trajectory_bad_magic_sample :
  read_trajectory LittleEndian (single_file "traj.bin" sample_abcd) "traj.bin" =
    mk_outcome (Raise (SystemExit 1)) [MsgBadMagic] (Nat.min 4 (length sample_abcd)).
Proof.
  apply (read_trajectory_bad_magic LittleEndian
           (single_file "traj.bin" sample_abcd) "traj.bin" sample_abcd);
    [reflexivity | discriminate].
Defined.

Lemma read_trajectory_truncated_header_sample :
  read_trajectory LittleEndian (single_file "traj.bin" sample_short_header) "traj.bin" =
    mk_outcome (Raise StructError) [] (length sample_short_header).
Proof.
  apply (read_trajectory_truncated_header LittleEndian
           (single_file "traj.bin" sample_short_header) "traj.bin" sample_short_header);
    [reflexivity | reflexivity | simpl; lia].
Defined.

Lemma read_trajectory_negative_count_sample :
  read_trajectory LittleEndian (single_file "traj.bin" sample_negative_count) "traj.bin" =
    mk_outcome (Ok (2, 3, [])) [MsgLoading "traj.bin" 2 3 (-1)] 16.
Proof.
  apply (read_trajectory_negative_count LittleEndian
           (single_file "traj.bin" sample_negative_count) "traj.bin"
           sample_negative_count 2 3 (-1));
    [reflexivity | reflexivity | reflexivity | lia].
Defined.




Lemma zero_amplitude : (sqrt (0 * 0 + 0 * 0) <= 1e-9)%R.
Proof. replace (0 * 0 + 0 * 0)%R with 0%R by ring. rewrite sqrt_0. lra. Qed.


Lemma complex_to_rgb_black_sample :
  exists image : ndarray R,
    image_of_call 0%nat [VComplex zero_frame] = Some image /\
    pixel_at image 0 = Some (0, 0, 0)%R.
Proof.
  apply (complex_to_rgb_black [VComplex zero_frame] 0%nat zero_frame 0%nat 0 0);
    [reflexivity | reflexivity | exact zero_amplitude].
Defined.

Lemma complex_to_rgb_range_sample :
  exists (image : ndarray R) (r g b : R),
    image_of_call 0%nat [VComplex unit_frame] = Some image /\
    pixel_at image 0 = Some (r, g, b) /\
    (0 <= r <= 1)%R /\ (0 <= g <= 1)%R /\ (0 <= b <= 1)%R.
Proof.
  apply (complex_to_rgb_range [VComplex unit_frame] 0%nat unit_frame 0%nat (1, 0)%R);
    reflexivity.
Defined.

(** Two calls on the same frame, the second from a store in which another
    array lies before it. *)
Lemma complex_to_rgb_pure_sample :
  exists (out1 out2 : ref) (s1' s2' : store) (image : ndarray R),
    complex_to_rgb 0%nat [VComplex unit_frame] = (Ok out1, s1') /\
    complex_to_rgb 1%nat [VComplex zero_frame; VComplex unit_frame] = (Ok out2, s2') /\
    s1' !! out1 = Some (VFloat image) /\
    s2' !! out2 = Some (VFloat image) /\
    s1' !! 0%nat = Some (VComplex unit_frame) /\
    (forall (r : ref) (v : value),
       [VComplex unit_frame] !! r = Some v -> s1' !! r = Some v).
Proof.
  apply (complex_to_rgb_pure [VComplex unit_frame]
           [VComplex zero_frame; VComplex unit_frame] 0%nat 1%nat unit_frame);
    reflexivity.
Defined.

(** *** The edges of the float range *)

(** A sample whose amplitude is the threshold itself is black: the
    comparison of the code is strict. *)
Lemma threshold_sample_black :
  exists image : ndarray R,
    image_of_call 0%nat [VComplex threshold_frame] = Some image /\
    pixel_at image 0 = Some (0, 0, 0)%R.
Proof.
  exists (rgb_image threshold_frame).
  split; [apply image_of_call_run; reflexivity |].
  rewrite (pixel_at_rgb_image threshold_frame 0 (double_1e_9, 0)%R eq_refl).
  unfold sample_to_rgb, sample_channels, Cabs. cbn [fst snd].
  replace (double_1e_9 * double_1e_9 + 0 * 0)%R with (Rsqr double_1e_9)
    by (unfold Rsqr; ring).
  pose proof double_1e_9_pos as Hpos. pose proof overflow_bound_large as Hlarge.
  assert (Hsmall : (double_1e_9 < 1)%R) by (unfold double_1e_9; lra).
  rewrite sqrt_Rsqr by lra.
  destruct (Rlt_dec double_1e_9 overflow_bound); [| lra].
  cbn [xgtb]. unfold Rgtb. destruct (Rgt_dec double_1e_9 double_1e_9); [lra |].
  rewrite !clip01_id by lra. reflexivity.
Qed.

(** A finite sample whose amplitude overflows is grey: the luminance is
    [atan(+inf) / pi = 0.5] and the chroma [0.5 * 0.5 / +inf = 0]. *)
Lemma overflowing_sample_grey :
  exists image : ndarray R,
    image_of_call 0%nat [VComplex overflowing_frame] = Some image /\
    pixel_at image 0 = Some (0.5, 0.5, 0.5)%R.
Proof.
  exists (rgb_image overflowing_frame).
  split; [apply image_of_call_run; reflexivity |].
  rewrite (pixel_at_rgb_image overflowing_frame 0 (large_part, large_part) eq_refl).
  assert (Habs : Cabs (large_part, large_part) = Infinity).
  { unfold Cabs. cbn [fst snd].
    destruct (Rlt_dec (sqrt (large_part * large_part + large_part * large_part))
                overflow_bound) as [Hlt | _]; [exfalso | reflexivity].
    assert (Hle : (overflow_bound <= sqrt (Rsqr overflow_bound))%R).
    { rewrite sqrt_Rsqr; [lra |]. unfold overflow_bound, overflow_bound_Z. lra. }
    assert (Hmono : (sqrt (Rsqr overflow_bound) <=
                     sqrt (large_part * large_part + large_part * large_part))%R).
    { apply sqrt_le_1_alt. unfold Rsqr, overflow_bound, overflow_bound_Z,
        large_part, large_part_Z. rewrite <- !mult_IZR, <- plus_IZR.
      apply IZR_le. vm_compute. discriminate. }
    lra. }
  unfold sample_to_rgb, sample_channels. rewrite Habs. cbn [xgtb xatan xdiv].
  pose proof PI_RGT_0 as Hpi.
  replace (PI / 2 / PI)%R with (/ 2)%R by (field; lra).
  rewrite !clip01_id by lra. f_equal. f_equal; [f_equal |]; lra.
Qed.

(* ------------------------------------------------------------------ *)
(** ** The reader on arbitrary files *)

(** The lemmas of this part make no assumption on the header: the
    dimensions and the declared count are whatever the twelve bytes
    decode to. *)

Lemma frombuffer_raises (bo : byteorder) (buf : list byte) (e : exn) :
  np.frombuffer bo buf = Raise e -> e = ValueError.
Proof.
  unfold np.frombuffer. destruct (length buf mod 16 =? 0)%nat; congruence.
Qed.

Lemma reshape_raises {T : Type} (arr : ndarray T) (newshape : list Z) (e : exn) :
  np.reshape arr newshape = Raise e -> e = ValueError.
Proof.
  unfold np.reshape.
  destruct (filter _ newshape) as [| d [| d' rest]];
    repeat match goal with |- context [if ?c then _ else _] => destruct c end;
    congruence.
Qed.

Lemma reshape_data {T : Type} (arr arr' : ndarray T) (newshape : list Z) :
  np.reshape arr newshape = Ok arr' -> data arr' = data arr.
Proof.
  unfold np.reshape.
  destruct (filter _ newshape) as [| d [| d' rest]];
    repeat match goal with |- context [if ?c then _ else _] => destruct c end;
    intros H; inversion H; reflexivity.
Qed.

(** A read moves the offset forward, never past the end of the file, and
    changes neither the bytes nor the output; when it is refused nothing
    has been read. *)
Lemma f_read_state (n : Z) (s s' : state) (r : result (list byte)) :
  f_read n s = (r, s') ->
  content s' = content s /\ stdout s' = stdout s /\
  (offset s <= offset s')%nat /\
  ((offset s <= length (content s))%nat -> (offset s' <= length (content s))%nat) /\
  (forall e, r = Raise e -> (e = ValueError \/ e = OverflowError) /\ s' = s).
Proof.
  unfold f_read.
  destruct ((n <? - 2 ^ 63) || (2 ^ 63 <=? n)); [| destruct (n <? -1)];
    intros H; inversion H; subst.
  - split; [reflexivity |]. split; [reflexivity |]. split; [lia |]. split; [auto |].
    intros e' He. inversion He. auto.
  - split; [reflexivity |]. split; [reflexivity |]. split; [lia |]. split; [auto |].
    intros e' He. inversion He. auto.
  - cbn [content offset stdout]. split; [reflexivity |]. split; [reflexivity |].
    split; [lia |]. split; [| discriminate].
    intros Hoff. destruct (n =? -1).
    + rewrite length_drop. lia.
    + rewrite length_take, length_drop. lia.
Qed.

Section FrameLoopGeneral.

Variable bo : byteorder.
Variables frame_size_bytes height width : Z.

(** What [k] iterations from index [i] can do, whatever the frame size:
    they raise [ValueError] or [OverflowError] without printing, or they
    append at most [k]
    frames; fewer than [k] exactly when the warning is printed, and the
    warning then names the index after the last frame appended. *)
Lemma read_frames_cases (k : nat) :
  forall (i : Z) (frames : list frame) (s s' : state) (r : result (list frame)),
    read_frames bo (seqZ i (Z.of_nat k)) frame_size_bytes height width frames s = (r, s') ->
    content s' = content s /\
    (offset s <= offset s')%nat /\
    ((offset s <= length (content s))%nat -> (offset s' <= length (content s))%nat) /\
    match r with
    | Raise e => (e = ValueError \/ e = OverflowError) /\ stdout s' = stdout s
    | Ok frames' =>
        exists added : list frame,
          frames' = frames ++ added /\
          ((length added = k /\ stdout s' = stdout s) \/
           ((length added < k)%nat /\
            stdout s' = stdout s ++ [MsgIncomplete (i + Z.of_nat (length added))]))
    end.
Proof.
  induction k as [| k IH]; intros i frames s s' r Hrun.
  - cbn in Hrun. unfold ret in Hrun. inversion Hrun; subst.
    repeat split; try lia. exists []. rewrite app_nil_r. split; [reflexivity |].
    left. split; reflexivity.
  - rewrite seqZ_cons in Hrun by lia.
    replace (Z.pred (Z.of_nat (S k))) with (Z.of_nat k) in Hrun by lia.
    cbn [read_frames] in Hrun. unfold bind at 1 in Hrun.
    destruct (f_read frame_size_bytes s) as [got s1] eqn:Hread.
    destruct (f_read_state _ _ _ _ Hread) as (Hc1 & Ho1 & Hle1 & Hin1 & Hexn1).
    destruct got as [buf | e].
    + destruct (Z.eqb_spec (Z.of_nat (length buf)) frame_size_bytes) as [Hfull | Hshort];
        cbn [negb] in Hrun.
      * unfold bind at 1 in Hrun. unfold lift at 1 in Hrun.
        destruct (np.frombuffer bo buf) as [arr | e] eqn:Harr.
        -- unfold bind at 1 in Hrun. unfold lift at 1 in Hrun.
           destruct (np.reshape arr [height; width]) as [arr' | e] eqn:Hshape.
           ++ destruct (IH _ _ _ _ _ Hrun) as (Hc & Hle & Hin & Hres).
              rewrite Hc, Hc1. split; [reflexivity |]. split; [lia |].
              split; [intros Hoff; rewrite <- Hc1; apply Hin; rewrite Hc1; auto |].
              destruct r as [frames' | e]; [| rewrite <- Ho1; exact Hres].
              destruct Hres as (added & -> & Hcount).
              exists (arr' :: added). rewrite <- app_assoc. split; [reflexivity |].
              cbn [length]. rewrite Ho1 in Hcount.
              destruct Hcount as [[Hk Hout] | [Hk Hout]]; [left | right].
              ** split; [lia | exact Hout].
              ** split; [lia |]. rewrite Hout. do 3 f_equal. lia.
           ++ inversion Hrun; subst. rewrite (reshape_raises _ _ _ Hshape).
              split; [auto |]. split; [auto |]. split; [auto |]. split; [left; reflexivity | auto].
        -- inversion Hrun; subst. rewrite (frombuffer_raises _ _ _ Harr).
           split; [auto |]. split; [auto |]. split; [auto |]. split; [left; reflexivity | auto].
      * unfold bind, print, ret in Hrun. inversion Hrun; subst.
        cbn [content offset stdout]. repeat split; auto.
        exists []. rewrite app_nil_r. split; [reflexivity |].
        right. cbn [length]. split; [lia |]. rewrite Ho1, Z.add_0_r. reflexivity.
    + inversion Hrun; subst. destruct (Hexn1 e eq_refl) as (He & ->).
      split; [auto |]. split; [auto |]. split; [auto |]. split; [exact He | auto].
Qed.

End FrameLoopGeneral.

Lemma seqZ_to_nat (i n : Z) : seqZ i n = seqZ i (Z.of_nat (Z.to_nat n)).
Proof. unfold seqZ. now rewrite Nat2Z.id. Qed.

Lemma magic_length (bytes : list byte) :
  file_magic bytes = SCHR -> (4 <= length bytes)%nat.
Proof.
  intros Hmagic. apply (f_equal length) in Hmagic. unfold file_magic in Hmagic.
  rewrite length_take in Hmagic. change (length SCHR) with 4%nat in Hmagic. lia.
Qed.

Lemma read_open_file_bad_magic (bo : byteorder) (filename : string) (bytes : list byte) :
  file_magic bytes <> SCHR ->
  read_open_file bo filename (mk_state bytes 0 []) =
    (Raise (SystemExit 1), mk_state bytes (Nat.min 4 (length bytes)) [MsgBadMagic]).
Proof.
  intros Hmagic. unfold read_open_file. unfold bind at 1.
  rewrite f_read_nonneg by lia. cbn [content offset stdout].
  change (take (Z.to_nat 4) (drop 0 bytes)) with (file_magic bytes).
  rewrite bool_decide_eq_true_2 by exact Hmagic.
  unfold bind, print, raise. cbn [content offset stdout app].
  unfold file_magic. rewrite length_take. reflexivity.
Qed.

Lemma read_open_file_short_header (bo : byteorder) (filename : string) (bytes : list byte) :
  file_magic bytes = SCHR ->
  (length bytes < 16)%nat ->
  read_open_file bo filename (mk_state bytes 0 []) =
    (Raise StructError, mk_state bytes (length bytes) []).
Proof.
  intros Hmagic Hshort. rewrite read_open_file_magic by exact Hmagic.
  pose proof (magic_length _ Hmagic) as Hlen4.
  assert (Hhdr : length (file_header bytes) = (length bytes - 4)%nat).
  { unfold file_header. rewrite length_take, length_drop. lia. }
  unfold bind, lift, struct.unpack_iii. rewrite Hhdr.
  destruct (Nat.eqb_spec (length bytes - 4) 12); [lia |].
  f_equal. f_equal. lia.
Qed.

Lemma unpack_iii_complete (bo : byteorder) (bytes : list byte) :
  (16 <= length bytes)%nat ->
  exists width height frame_count : Z,
    struct.unpack_iii bo (file_header bytes) = Ok (width, height, frame_count).
Proof.
  intros Hlen. unfold struct.unpack_iii, file_header.
  rewrite length_take, length_drop.
  replace (12 `min` (length bytes - 4))%nat with 12%nat by lia.
  cbn [Nat.eqb]. eauto.
Qed.

(** Every run of [read_trajectory] is of one of five kinds. *)
Lemma read_trajectory_cases (bo : byteorder) (fsys : string -> option (list byte))
    (filename : string) :
  (fsys filename = None /\
   read_trajectory bo fsys filename =
     mk_outcome (Raise (SystemExit 1)) [MsgNotFound filename] 0) \/
  (exists bytes : list byte,
     fsys filename = Some bytes /\
     (consumed (read_trajectory bo fsys filename) <= length bytes)%nat /\
     ((file_magic bytes <> SCHR /\
       returned (read_trajectory bo fsys filename) = Raise (SystemExit 1) /\
       printed (read_trajectory bo fsys filename) = [MsgBadMagic]) \/
      (file_magic bytes = SCHR /\ (length bytes < 16)%nat /\
       returned (read_trajectory bo fsys filename) = Raise StructError /\
       printed (read_trajectory bo fsys filename) = []) \/
      (exists width height frame_count : Z,
         file_magic bytes = SCHR /\
         struct.unpack_iii bo (file_header bytes) = Ok (width, height, frame_count) /\
         ((exists e : exn,
             (e = ValueError \/ e = OverflowError) /\
             returned (read_trajectory bo fsys filename) = Raise e /\
             printed (read_trajectory bo fsys filename) =
               [MsgLoading filename width height frame_count]) \/
          (exists frames : list frame,
             returned (read_trajectory bo fsys filename) = Ok (width, height, frames) /\
             ((length frames = Z.to_nat frame_count /\
               printed (read_trajectory bo fsys filename) =
                 [MsgLoading filename width height frame_count]) \/
              ((length frames < Z.to_nat frame_count)%nat /\
               printed (read_trajectory bo fsys filename) =
                 [MsgLoading filename width height frame_count;
                  MsgIncomplete (Z.of_nat (length frames))]))))))).
Proof.
  unfold read_trajectory. destruct (fsys filename) as [bytes |]; [right | left; auto].
  exists bytes. split; [reflexivity |].
  destruct (decide (file_magic bytes = SCHR)) as [Hmagic | Hmagic].
  - destruct (Nat.lt_ge_cases (length bytes) 16) as [Hshort | Hlong].
    + rewrite (read_open_file_short_header bo filename bytes Hmagic Hshort).
      cbn [returned printed consumed stdout offset]. split; [lia |].
      right; left. auto.
    + destruct (unpack_iii_complete bo bytes Hlong) as (width & height & frame_count & Hunpack).
      rewrite (read_open_file_header _ _ _ _ _ _ Hmagic Hunpack).
      rewrite seqZ_to_nat.
      destruct (read_frames bo _ _ _ _ _ _) as [r s'] eqn:Hrun.
      destruct (read_frames_cases _ _ _ _ _ _ _ _ _ _ Hrun) as (Hc & Hle & Hin & Hres).
      cbn [content offset stdout] in *.
      destruct r as [frames | e].
      * cbn [returned printed consumed]. split; [apply Hin; exact Hlong |].
        right; right. exists width, height, frame_count.
        split; [exact Hmagic |]. split; [exact Hunpack |]. right.
        exists frames. split; [reflexivity |].
        destruct Hres as (added & Hfr & Hcount). cbn [app] in Hfr. subst added.
        destruct Hcount as [[Hk Hout] | [Hk Hout]]; [left | right];
          (split; [exact Hk | rewrite Hout; reflexivity]).
      * cbn [returned printed consumed]. split; [apply Hin; exact Hlong |].
        right; right. exists width, height, frame_count.
        split; [exact Hmagic |]. split; [exact Hunpack |]. left.
        destruct Hres as [He ->]. exists e. auto.
  - rewrite (read_open_file_bad_magic bo filename bytes Hmagic).
    cbn [returned printed consumed stdout offset]. split; [lia |].
    left. auto.
Qed.

(* ------------------------------------------------------------------ *)
(** ** Further properties of [read_trajectory] *)

(** X1. A returned trajectory always comes from an existing file that
    starts with "SCHR" and has a complete header: the returned width and
    height are the header's, and the trajectory never holds more frames
    than the header declares. *)
Theorem read_trajectory_success_sound (bo : byteorder)
    (fsys : string -> option (list byte)) (filename : string)
    (width height : Z) (frames : list frame) :
  returned (read_trajectory bo fsys filename) = Ok (width, height, frames) ->
  exists (bytes : list byte) (frame_count : Z),
    fsys filename = Some bytes /\
    file_magic bytes = SCHR /\
    struct.unpack_iii bo (file_header bytes) = Ok (width, height, frame_count) /\
    (length frames <= Z.to_nat frame_count)%nat.
Proof.
  intros Hret.
  destruct (read_trajectory_cases bo fsys filename)
    as [[_ Hrun] | (bytes & Hfile & _ & [Hbad | [Hshort | Hhdr]])].
  - rewrite Hrun in Hret. discriminate.
  - destruct Hbad as (_ & Hr & _). congruence.
  - destruct Hshort as (_ & _ & Hr & _). congruence.
  - destruct Hhdr
      as (w & h & n & Hmagic & Hunpack & [(e' & _ & Hr & _) | (fs & Hr & Hcount)]);
      [congruence |].
    rewrite Hr in Hret. injection Hret as -> -> ->.
    exists bytes, n. repeat split; try assumption.
    destruct Hcount as [[Hlen _] | [Hlen _]]; lia.
Qed.

(** X2. When a trajectory is returned, the output is the line announcing
    the file followed by at most one warning; the warning is there exactly
    when fewer frames are returned than the header declares, and the index
    it names is the number of frames returned. *)
Theorem read_trajectory_warning_exact (bo : byteorder)
    (fsys : string -> option (list byte)) (filename : string)
    (width height : Z) (frames : list frame) :
  returned (read_trajectory bo fsys filename) = Ok (width, height, frames) ->
  exists frame_count : Z,
    (length frames = Z.to_nat frame_count /\
     printed (read_trajectory bo fsys filename) =
       [MsgLoading filename width height frame_count]) \/
    ((length frames < Z.to_nat frame_count)%nat /\
     printed (read_trajectory bo fsys filename) =
       [MsgLoading filename width height frame_count;
        MsgIncomplete (Z.of_nat (length frames))]).
Proof.
  intros Hret.
  destruct (read_trajectory_cases bo fsys filename)
    as [[_ Hrun] | (bytes & Hfile & _ & [Hbad | [Hshort | Hhdr]])].
  - rewrite Hrun in Hret. discriminate.
  - destruct Hbad as (_ & Hr & _). congruence.
  - destruct Hshort as (_ & _ & Hr & _). congruence.
  - destruct Hhdr
      as (w & h & n & Hmagic & Hunpack & [(e' & _ & Hr & _) | (fs & Hr & Hcount)]);
      [congruence |].
    rewrite Hr in Hret. injection Hret as -> -> ->.
    exists n. exact Hcount.
Qed.


(** *** Frames of a file with a valid header *)

(** A frame depends on its own bytes only: cutting the payload after them
    does not change it. *)
Lemma payload_frame_take (bo : byteorder) (height width : Z) (payload : list byte)
    (cut k : nat) :
  ((k + 1) * frame_size width height <= cut)%nat ->
  payload_frame bo height width (take cut payload) k =
  payload_frame bo height width payload k.
Proof.
  intros Hcut. unfold payload_frame. cbv zeta. f_equal.
  rewrite !take_drop_commute, take_take. do 2 f_equal. lia.
Qed.

(** The frames before the first incomplete one are whole. *)
Lemma payload_chunk_length (width height : Z) (payload : list byte) (k : nat) :
  0 < width -> 0 < height ->
  (k < length payload / frame_size width height)%nat ->
  length (take (frame_size width height)
            (drop (k * frame_size width height) payload)) =
  frame_size width height.
Proof.
  intros Hw Hh Hk.
  assert (Hpos : (0 < frame_size width height)%nat) by (unfold frame_size; nia).
  pose proof (Nat.Div0.mul_div_le (length payload) (frame_size width height)) as Hdiv.
  rewrite length_take, length_drop. nia.
Qed.

Lemma truncated_parts (bytes : list byte) (cut : nat) :
  (16 <= cut)%nat ->
  file_magic (take cut bytes) = file_magic bytes /\
  file_header (take cut bytes) = file_header bytes /\
  file_payload (take cut bytes) = take (cut - 16) (file_payload bytes).
Proof.
  intros Hcut. unfold file_magic, file_header, file_payload. repeat split.
  - rewrite take_take. f_equal. lia.
  - rewrite !take_drop_commute, take_take. do 2 f_equal. lia.
  - rewrite take_drop_commute. do 2 f_equal. lia.
Qed.

(** A call on a file with a valid header returns only when no frame is
    declared or when the frames are of a size that can be read. *)
Lemma read_trajectory_ok_cases (bo : byteorder)
    (fsys : string -> option (list byte)) (filename : string) (bytes : list byte)
    (width height frame_count : Z) (frames : list frame) :
  fsys filename = Some bytes ->
  file_magic bytes = SCHR ->
  struct.unpack_iii bo (file_header bytes) = Ok (width, height, frame_count) ->
  0 <= frame_count ->
  returned (read_trajectory bo fsys filename) = Ok (width, height, frames) ->
  (frame_count = 0 /\ frames = []) \/ width * height * 16 < 2 ^ 63.
Proof.
  intros Hfile Hmagic Hunpack Hn Hret.
  destruct (Z.lt_ge_cases (width * height * 16) (2 ^ 63)) as [Hsmall | Hlarge];
    [right; exact Hsmall | left].
  destruct (Z.eq_dec frame_count 0) as [-> | Hne].
  - rewrite (read_trajectory_no_iteration bo fsys filename bytes Hfile width height 0)
      in Hret by (assumption || lia).
    cbn [returned] in Hret. split; [reflexivity | congruence].
  - rewrite (read_trajectory_oversize bo fsys filename bytes Hfile width height frame_count)
      in Hret by (assumption || lia || (right; exact Hlarge)).
    discriminate.
Qed.

(** X5. When a trajectory is returned from a file with a valid header,
    every frame in it has the shape [(height, width)] and holds
    [width * height] samples. *)
Theorem read_trajectory_frame_shapes (bo : byteorder)
    (fsys : string -> option (list byte)) (filename : string) (bytes : list byte)
    (width height frame_count : Z) (frames : list frame) :
  fsys filename = Some bytes ->
  file_magic bytes = SCHR ->
  struct.unpack_iii bo (file_header bytes) = Ok (width, height, frame_count) ->
  0 < width -> 0 < height -> 0 <= frame_count ->
  returned (read_trajectory bo fsys filename) = Ok (width, height, frames) ->
  Forall (fun f => shape f = [height; width] /\
                   Z.of_nat (length (data f)) = width * height) frames.
Proof.
  intros Hfile Hmagic Hunpack Hw Hh Hn Hret.
  destruct (read_trajectory_ok_cases _ _ _ _ _ _ _ _ Hfile Hmagic Hunpack Hn Hret)
    as [[_ ->] | Hsmall]; [constructor |].
  rewrite (read_trajectory_valid bo fsys filename bytes Hfile width height frame_count)
    in Hret by assumption.
  cbn [returned] in Hret. injection Hret as <-.
  apply List.Forall_map, List.Forall_forall. intros k Hk.
  apply in_seq in Hk. split; [reflexivity |].
  unfold payload_frame, frame_of_bytes. cbn [data].
  rewrite length_map, length_seq, payload_chunk_length by (assumption || lia).
  unfold frame_size.
  replace (Z.to_nat (width * height * 16)) with (Z.to_nat (width * height) * 16)%nat by lia.
  rewrite Nat.div_mul by lia. lia.
Qed.


(** X7. Truncation keeps what was decoded.  When a file with a valid
    header yields a trajectory, the file cut anywhere after the header
    yields one too, and its frames are the first frames of the trajectory
    of the whole file. *)
Theorem read_trajectory_prefix_stable (bo : byteorder)
    (fsys fsys' : string -> option (list byte)) (filename filename' : string)
    (bytes : list byte) (cut : nat) (width height frame_count : Z)
    (frames : list frame) :
  fsys filename = Some bytes ->
  fsys' filename' = Some (take cut bytes) ->
  (16 <= cut)%nat ->
  file_magic bytes = SCHR ->
  struct.unpack_iii bo (file_header bytes) = Ok (width, height, frame_count) ->
  0 < width -> 0 < height -> 0 <= frame_count ->
  returned (read_trajectory bo fsys filename) = Ok (width, height, frames) ->
  exists frames' : list frame,
    returned (read_trajectory bo fsys' filename') = Ok (width, height, frames') /\
    frames' `prefix_of` frames.
Proof.
  intros Hfile Hfile' Hcut Hmagic Hunpack Hw Hh Hn Hret.
  destruct (truncated_parts bytes cut Hcut) as (Hm & Hh' & Hp).
  destruct (read_trajectory_ok_cases _ _ _ _ _ _ _ _ Hfile Hmagic Hunpack Hn Hret)
    as [[-> ->] | Hsmall].
  { rewrite (read_trajectory_no_iteration bo fsys' filename' (take cut bytes) Hfile'
               width height 0) by (congruence || lia).
    exists []. split; [reflexivity | apply prefix_nil]. }
  assert (Hpos : (0 < frame_size width height)%nat) by (unfold frame_size; nia).
  rewrite (read_trajectory_valid bo fsys filename bytes Hfile width height frame_count)
    in Hret by assumption.
  cbn [returned] in Hret. injection Hret as <-.
  rewrite (read_trajectory_valid bo fsys' filename' (take cut bytes) Hfile'
             width height frame_count) by (congruence || assumption).
  cbn [returned]. eexists. split; [reflexivity |].
  rewrite Hp.
  set (payload := file_payload bytes).
  set (size := frame_size width height) in *.
  set (m' := Nat.min (Z.to_nat frame_count) (length (take (cut - 16) payload) / size)).
  set (m := Nat.min (Z.to_nat frame_count) (length payload / size)).
  assert (Hmm : (m' <= m)%nat).
  { unfold m', m. apply Nat.min_le_compat_l, Nat.Div0.div_le_mono.
    rewrite length_take. lia. }
  exists (map (payload_frame bo height width payload) (seq m' (m - m'))).
  rewrite <- (map_ext_in (payload_frame bo height width payload)
                (payload_frame bo height width (take (cut - 16) payload)) (seq 0 m')).
  - rewrite <- map_app, <- seq_app. do 2 f_equal. lia.
  - intros k Hk. apply in_seq in Hk. symmetry. apply payload_frame_take.
    fold size.
    assert (Hk' : (k < length (take (cut - 16) payload) / size)%nat) by (unfold m' in Hk; lia).
    pose proof (Nat.Div0.mul_div_le (length (take (cut - 16) payload)) size) as Hdiv.
    rewrite length_take in Hdiv, Hk'.
    assert (((k + 1) * size <= size * (Nat.min (cut - 16) (length payload) / size))%nat) by nia.
    lia.
Qed.

(* ------------------------------------------------------------------ *)
(** ** Decoding of integers *)

Lemma byte_val_bounds (b : byte) : 0 <= byte_val b < 256.
Proof. unfold byte_val. pose proof (Byte.to_N_bounded b). lia. Qed.

Lemma byte_val_inj (b b' : byte) : byte_val b = byte_val b' -> b = b'.
Proof.
  unfold byte_val. intros H. apply N2Z.inj in H.
  pose proof (Byte.of_to_N b) as Hb. rewrite H, Byte.of_to_N in Hb. congruence.
Qed.

(** The bytes of a little-endian number occupy disjoint bits, so the
    bitwise "or" adds them up. *)
Lemma uint_le_cons (b : byte) (rest : list byte) :
  uint_le (b :: rest) = byte_val b + 256 * uint_le rest.
Proof.
  cbn [uint_le]. pose proof (byte_val_bounds b) as Hb.
  rewrite <- Z.add_nocarry_lor.
  - rewrite Z.shiftl_mul_pow2 by lia. lia.
  - apply Z.bits_inj'. intros n Hn. rewrite Z.land_spec, Z.bits_0.
    destruct (Z.lt_ge_cases n 8) as [Hlow | Hhigh].
    + rewrite (Z.shiftl_spec_low _ _ _ Hlow). apply andb_false_r.
    + rewrite <- (Z.mod_small (byte_val b) (2 ^ 8)) by lia.
      rewrite Z.mod_pow2_bits_high by lia. reflexivity.
Qed.

Lemma uint_le_bounds (bs : list byte) :
  0 <= uint_le bs < 2 ^ (8 * Z.of_nat (length bs)).
Proof.
  induction bs as [| b bs IH].
  - cbn. lia.
  - rewrite uint_le_cons. pose proof (byte_val_bounds b) as Hb.
    replace (8 * Z.of_nat (length (b :: bs))) with (8 + 8 * Z.of_nat (length bs))
      by (cbn [length]; lia).
    rewrite Z.pow_add_r by lia. change (2 ^ 8) with 256. lia.
Qed.

Lemma uint_le_inj (bs bs' : list byte) :
  length bs = length bs' -> uint_le bs = uint_le bs' -> bs = bs'.
Proof.
  revert bs'. induction bs as [| b bs IH]; intros [| b' bs'] Hlen Heq;
    try discriminate; [reflexivity |].
  rewrite !uint_le_cons in Heq.
  pose proof (byte_val_bounds b). pose proof (byte_val_bounds b').
  assert (Hb : byte_val b = byte_val b') by lia.
  assert (Hr : uint_le bs = uint_le bs') by lia.
  f_equal; [apply byte_val_inj; exact Hb | apply IH; [now injection Hlen | exact Hr]].
Qed.

Lemma uint_of_bytes_bounds (bo : byteorder) (bs : list byte) :
  0 <= uint_of_bytes bo bs < 2 ^ (8 * Z.of_nat (length bs)).
Proof.
  destruct bo; cbn [uint_of_bytes]; [apply uint_le_bounds |].
  rewrite <- length_rev. apply uint_le_bounds.
Qed.

Lemma uint_of_bytes_inj (bo : byteorder) (bs bs' : list byte) :
  length bs = length bs' -> uint_of_bytes bo bs = uint_of_bytes bo bs' -> bs = bs'.
Proof.
  intros Hlen Heq. destruct bo; cbn [uint_of_bytes] in Heq.
  - now apply uint_le_inj.
  - apply uint_le_inj in Heq; [| now rewrite !length_rev].
    apply (f_equal (@rev byte)) in Heq. now rewrite !rev_involutive in Heq.
Qed.

Lemma int32_of_bytes_range (bo : byteorder) (bs : list byte) :
  length bs = 4%nat -> - 2 ^ 31 <= int32_of_bytes bo bs < 2 ^ 31.
Proof.
  intros Hlen. unfold int32_of_bytes.
  pose proof (uint_of_bytes_bounds bo bs) as Hu. rewrite Hlen in Hu.
  change (2 ^ (8 * Z.of_nat 4)) with (2 ^ 32) in Hu.
  destruct (Z.ltb_spec (uint_of_bytes bo bs) (2 ^ 31)); lia.
Qed.

Lemma int32_of_bytes_inj (bo : byteorder) (bs bs' : list byte) :
  length bs = 4%nat -> length bs' = 4%nat ->
  int32_of_bytes bo bs = int32_of_bytes bo bs' -> bs = bs'.
Proof.
  intros Hlen Hlen' Heq. apply (uint_of_bytes_inj bo); [congruence |].
  unfold int32_of_bytes in Heq.
  pose proof (uint_of_bytes_bounds bo bs) as Hu. rewrite Hlen in Hu.
  pose proof (uint_of_bytes_bounds bo bs') as Hu'. rewrite Hlen' in Hu'.
  change (2 ^ (8 * Z.of_nat 4)) with (2 ^ 32) in Hu, Hu'.
  destruct (Z.ltb_spec (uint_of_bytes bo bs) (2 ^ 31)),
           (Z.ltb_spec (uint_of_bytes bo bs') (2 ^ 31)); lia.
Qed.

Lemma unpack_iii_range (bo : byteorder) (buf : list byte) (width height frame_count : Z) :
  struct.unpack_iii bo buf = Ok (width, height, frame_count) ->
  - 2 ^ 31 <= width < 2 ^ 31 /\
  - 2 ^ 31 <= height < 2 ^ 31 /\
  - 2 ^ 31 <= frame_count < 2 ^ 31.
Proof.
  intros Hunpack. pose proof (unpack_iii_length _ _ _ Hunpack) as Hlen.
  unfold struct.unpack_iii in Hunpack. rewrite Hlen in Hunpack. cbn [Nat.eqb] in Hunpack.
  injection Hunpack as <- <- <-.
  repeat split; apply int32_of_bytes_range;
    rewrite ?length_take, ?length_drop; lia.
Qed.

(** X8. The width, the height and the number of frames of a returned
    trajectory are within the range of a C [int]: the header fields are
    decoded as signed 32-bit numbers, and no more frames are returned
    than the header declares. *)
Theorem read_trajectory_int_range (bo : byteorder)
    (fsys : string -> option (list byte)) (filename : string)
    (width height : Z) (frames : list frame) :
  returned (read_trajectory bo fsys filename) = Ok (width, height, frames) ->
  - 2 ^ 31 <= width < 2 ^ 31 /\
  - 2 ^ 31 <= height < 2 ^ 31 /\
  Z.of_nat (length frames) < 2 ^ 31.
Proof.
  intros Hret.
  destruct (read_trajectory_cases bo fsys filename)
    as [[_ Hrun] | (bytes & Hfile & _ & [Hbad | [Hshort | Hhdr]])].
  - rewrite Hrun in Hret. discriminate.
  - destruct Hbad as (_ & Hr & _). congruence.
  - destruct Hshort as (_ & _ & Hr & _). congruence.
  - destruct Hhdr
      as (w & h & n & Hmagic & Hunpack & [(e' & _ & Hr & _) | (fs & Hr & Hcount)]);
      [congruence |].
    rewrite Hr in Hret. injection Hret as -> -> ->.
    destruct (unpack_iii_range _ _ _ _ _ Hunpack) as (Hw & Hh & Hn).
    split; [exact Hw |]. split; [exact Hh |].
    destruct Hcount as [[Hlen _] | [Hlen _]]; lia.
Qed.

(* ------------------------------------------------------------------ *)
(** ** Frames keep their bytes *)

Lemma complex128_of_bytes_inj (bo : byteorder) (bs bs' : list byte) :
  length bs = 16%nat -> length bs' = 16%nat ->
  np.complex128_of_bytes bo bs = np.complex128_of_bytes bo bs' -> bs = bs'.
Proof.
  intros Hlen Hlen' Heq. unfold np.complex128_of_bytes in Heq.
  injection Heq as Hre Him.
  apply uint_of_bytes_inj in Hre; [| rewrite !length_take; lia].
  apply uint_of_bytes_inj in Him; [| rewrite !length_take, !length_drop; lia].
  rewrite <- (take_drop 8 bs), <- (take_drop 8 bs'). f_equal; [exact Hre |].
  rewrite !take_ge in Him by (rewrite length_drop; lia). exact Him.
Qed.

(** Two buffers of [count] elements of 16 bytes that agree element by
    element are equal. *)
Lemma chunks_eq (count : nat) :
  forall buf buf' : list byte,
    length buf = (16 * count)%nat -> length buf' = (16 * count)%nat ->
    (forall k, (k < count)%nat ->
               take 16 (drop (16 * k) buf) = take 16 (drop (16 * k) buf')) ->
    buf = buf'.
Proof.
  induction count as [| count IH]; intros buf buf' Hlen Hlen' Hchunks.
  - destruct buf, buf'; try discriminate. reflexivity.
  - rewrite <- (take_drop 16 buf), <- (take_drop 16 buf'). f_equal.
    + apply (Hchunks 0%nat). lia.
    + apply IH; rewrite ?length_drop; try lia.
      intros k Hk. rewrite !drop_drop.
      replace (16 + 16 * k)%nat with (16 * S k)%nat by lia.
      apply Hchunks. lia.
Qed.

Lemma frame_of_bytes_inj (bo : byteorder) (height width : Z) (count : nat)
    (buf buf' : list byte) :
  length buf = (16 * count)%nat -> length buf' = (16 * count)%nat ->
  frame_of_bytes bo height width buf = frame_of_bytes bo height width buf' ->
  buf = buf'.
Proof.
  intros Hlen Hlen' Heq.
  pose proof (f_equal data Heq) as Hdata.
  unfold frame_of_bytes in Hdata. cbn [data] in Hdata. rewrite Hlen, Hlen' in Hdata.
  replace (16 * count)%nat with (count * 16)%nat in Hdata by lia.
  rewrite Nat.div_mul in Hdata by lia.
  apply (chunks_eq count); try assumption.
  intros k Hk.
  apply (complex128_of_bytes_inj bo).
  - rewrite length_take, length_drop. nia.
  - rewrite length_take, length_drop. nia.
  - rewrite List.map_ext_in_iff in Hdata. apply (Hdata k). apply in_seq. lia.
Qed.

(** The first [m] frames of a payload determine its first [m] frames'
    worth of bytes. *)
Lemma payload_frames_inj (bo : byteorder) (height width : Z) (payload payload' : list byte)
    (m : nat) :
  0 < width -> 0 < height ->
  (m <= length payload / frame_size width height)%nat ->
  (m <= length payload' / frame_size width height)%nat ->
  map (payload_frame bo height width payload) (seq 0 m) =
  map (payload_frame bo height width payload') (seq 0 m) ->
  take (m * frame_size width height) payload =
  take (m * frame_size width height) payload'.
Proof.
  intros Hw Hh. induction m as [| m IH]; intros Hm Hm' Hframes; [reflexivity |].
  rewrite seq_S, !map_app in Hframes. cbn [map Nat.add] in Hframes.
  apply app_inj_tail in Hframes. destruct Hframes as [Hinit Hlast].
  replace (S m * frame_size width height)%nat
    with (m * frame_size width height + frame_size width height)%nat by lia.
  rewrite <- !take_take_drop. f_equal; [apply IH; (lia || exact Hinit) |].
  unfold payload_frame in Hlast. cbv zeta in Hlast.
  apply (frame_of_bytes_inj bo height width (Z.to_nat (width * height))) in Hlast;
    [exact Hlast | |].
  - rewrite payload_chunk_length by (assumption || lia). unfold frame_size. lia.
  - rewrite payload_chunk_length by (assumption || lia). unfold frame_size. lia.
Qed.

(** X9. Decoding loses nothing.  If two files with valid headers of the
    same dimensions yield the same frames, their payloads agree byte for
    byte up to the end of the last frame returned. *)
Theorem read_trajectory_frames_exact (bo : byteorder)
    (fsys fsys' : string -> option (list byte)) (filename filename' : string)
    (bytes bytes' : list byte) (width height frame_count frame_count' : Z)
    (frames : list frame) :
  fsys filename = Some bytes ->
  fsys' filename' = Some bytes' ->
  file_magic bytes = SCHR ->
  file_magic bytes' = SCHR ->
  struct.unpack_iii bo (file_header bytes) = Ok (width, height, frame_count) ->
  struct.unpack_iii bo (file_header bytes') = Ok (width, height, frame_count') ->
  0 < width -> 0 < height -> 0 <= frame_count -> 0 <= frame_count' ->
  returned (read_trajectory bo fsys filename) = Ok (width, height, frames) ->
  returned (read_trajectory bo fsys' filename') = Ok (width, height, frames) ->
  take (length frames * frame_size width height) (file_payload bytes) =
  take (length frames * frame_size width height) (file_payload bytes').
Proof.
  intros Hfile Hfile' Hmagic Hmagic' Hunpack Hunpack' Hw Hh Hn Hn' Hret Hret'.
  destruct (read_trajectory_ok_cases _ _ _ _ _ _ _ _ Hfile Hmagic Hunpack Hn Hret)
    as [[_ ->] | Hsmall]; [reflexivity |].
  rewrite (read_trajectory_valid bo fsys filename bytes Hfile width height frame_count)
    in Hret by assumption.
  rewrite (read_trajectory_valid bo fsys' filename' bytes' Hfile' width height frame_count')
    in Hret' by assumption.
  cbn [returned] in Hret, Hret'.
  injection Hret as Hframes. injection Hret' as Hframes'.
  pose proof (f_equal (@length frame) Hframes) as Hlen.
  pose proof (f_equal (@length frame) Hframes') as Hlen'.
  rewrite length_map, length_seq in Hlen, Hlen'.
  rewrite Hlen in Hframes. rewrite Hlen' in Hframes'.
  apply (payload_frames_inj bo height width); try assumption; try lia.
  congruence.
Qed.

(* ------------------------------------------------------------------ *)
(** ** Further properties of [complex_to_rgb] *)

Lemma rgb_image_length (zarr : ndarray complex) :
  length (data (rgb_image zarr)) = (3 * length (data zarr))%nat.
Proof.
  unfold rgb_image. cbn [data]. induction (data zarr) as [| c cs IH]; [reflexivity |].
  cbn [flat_map]. destruct (sample_to_rgb c) as [[r g] b].
  rewrite length_app, IH. cbn [length]. lia.
Qed.

Lemma pixel_at_outside (image : ndarray R) (i : nat) :
  (length (data image) <= 3 * i)%nat -> pixel_at image i = None.
Proof.
  intros Hlen. unfold pixel_at. rewrite (lookup_ge_None_2 _ (3 * i)) by lia.
  reflexivity.
Qed.

(** X10. The image of a two-dimensional frame of shape [(height, width)]
    has the shape [(height, width, 3)] and three values per sample; it has
    a pixel exactly at the positions where the frame has a sample, so an
    empty frame gives an empty image. *)
Theorem complex_to_rgb_image_shape (s : store) (z : ref) (zarr : ndarray complex)
    (height width : Z) :
  s !! z = Some (VComplex zarr) ->
  shape zarr = [height; width] ->
  exists image : ndarray R,
    image_of_call z s = Some image /\
    shape image = [height; width; 3] /\
    length (data image) = (3 * length (data zarr))%nat /\
    (forall i : nat, is_Some (pixel_at image i) <-> (i < length (data zarr))%nat).
Proof.
  intros Hz Hshape. exists (rgb_image zarr).
  split; [apply image_of_call_run; exact Hz |].
  split; [unfold rgb_image; cbn [shape]; rewrite Hshape; reflexivity |].
  split; [apply rgb_image_length |].
  intros i. split.
  - intros [p Hp]. destruct (Nat.lt_ge_cases i (length (data zarr))) as [Hlt | Hge];
      [exact Hlt |].
    rewrite pixel_at_outside in Hp by (rewrite rgb_image_length; lia). discriminate.
  - intros Hlt. destruct (lookup_lt_is_Some_2 (data zarr) i Hlt) as [c Hc].
    rewrite (pixel_at_rgb_image _ _ _ Hc). eauto.
Qed.

(** X11. Clipping never changes a value.  The array [np.clip] returns, to
    which the call returns a reference, is equal to the array it is given:
    the stack [rgb], the object the call creates just before its result.
    Every channel already lies in [0, 1] before clipping. *)
Theorem complex_to_rgb_never_clips (s : store) (z : ref) (zarr : ndarray complex) :
  s !! z = Some (VComplex zarr) ->
  exists (out : ref) (s' : store) (image : ndarray R),
    complex_to_rgb z s = (Ok out, s') /\
    (length s < out)%nat /\
    s' !! out = Some (VFloat image) /\
    s' !! (out - 1)%nat = Some (VFloat image).
Proof.
  intros Hz. destruct (complex_to_rgb_run_stack s z zarr Hz) as [created Hrun].
  eexists _, _, (rgb_image zarr). split; [exact Hrun |]. split; [lia |]. split.
  - rewrite <- Nat.add_assoc, lookup_local.
    rewrite (lookup_local created _ 1). reflexivity.
  - replace (length s + length created + 1 - 1)%nat with (length s + length created)%nat
      by lia.
    rewrite lookup_local, rgb_stack_image.
    apply list_lookup_middle. reflexivity.
Qed.

(** X13. The transform acts on every sample independently: the pixel at a
    position depends on the sample at that position only, not on the
    other samples, the shape of the frame or the store. *)
Theorem complex_to_rgb_local (s s' : store) (z z' : ref) (zarr zarr' : ndarray complex)
    (i i' : nat) (c : complex) :
  s !! z = Some (VComplex zarr) ->
  s' !! z' = Some (VComplex zarr') ->
  data zarr !! i = Some c ->
  data zarr' !! i' = Some c ->
  exists (image image' : ndarray R) (pixel : R * R * R),
    image_of_call z s = Some image /\
    image_of_call z' s' = Some image' /\
    pixel_at image i = Some pixel /\
    pixel_at image' i' = Some pixel.
Proof.
  intros Hz Hz' Hi Hi'.
  exists (rgb_image zarr), (rgb_image zarr'), (sample_to_rgb c).
  split; [apply image_of_call_run; exact Hz |].
  split; [apply image_of_call_run; exact Hz' |].
  split; apply pixel_at_rgb_image; assumption.
Qed.

(** X14. Calls do not interfere.  When [complex_to_rgb] is called on one
    frame and then on another, each call returns the image it returns
    when called alone; the two images are different objects, neither is
    one of the objects that existed before, and the first image and both
    frames are intact after the second call. *)
Theorem complex_to_rgb_sequence (s : store) (z1 z2 : ref)
    (zarr1 zarr2 : ndarray complex) :
  s !! z1 = Some (VComplex zarr1) ->
  s !! z2 = Some (VComplex zarr2) ->
  exists (out1 out2 : ref) (s1 s2 : store) (image1 image2 : ndarray R),
    complex_to_rgb z1 s = (Ok out1, s1) /\
    complex_to_rgb z2 s1 = (Ok out2, s2) /\
    image_of_call z1 s = Some image1 /\
    image_of_call z2 s = Some image2 /\
    s2 !! out1 = Some (VFloat image1) /\
    s2 !! out2 = Some (VFloat image2) /\
    out1 <> out2 /\ (length s <= out1)%nat /\ (length s <= out2)%nat /\
    s2 !! z1 = Some (VComplex zarr1) /\
    s2 !! z2 = Some (VComplex zarr2).
Proof.
  intros Hz1 Hz2.
  destruct (complex_to_rgb_run s z1 zarr1 Hz1) as [c1 Hrun1].
  set (s1 := s ++ c1 ++ [VFloat (rgb_image zarr1)]) in *.
  assert (Hz2' : s1 !! z2 = Some (VComplex zarr2)) by (apply lookup_frame; exact Hz2).
  destruct (complex_to_rgb_run s1 z2 zarr2 Hz2') as [c2 Hrun2].
  assert (Hout1 : s1 !! (length s + length c1)%nat = Some (VFloat (rgb_image zarr1))).
  { unfold s1. rewrite lookup_local. apply list_lookup_middle. reflexivity. }
  assert (Hlen1 : length s1 = (length s + length c1 + 1)%nat).
  { unfold s1. rewrite !length_app. cbn [length]. lia. }
  exists (length s + length c1)%nat, (length s1 + length c2)%nat, s1,
    (s1 ++ c2 ++ [VFloat (rgb_image zarr2)]), (rgb_image zarr1), (rgb_image zarr2).
  split; [exact Hrun1 |]. split; [exact Hrun2 |].
  split; [apply image_of_call_run; exact Hz1 |].
  split; [apply image_of_call_run; exact Hz2 |].
  split; [apply lookup_frame; exact Hout1 |].
  split; [rewrite lookup_local; apply list_lookup_middle; reflexivity |].
  split; [lia |]. split; [lia |]. split; [lia |].
  split; apply lookup_frame; [apply lookup_frame; exact Hz1 | exact Hz2'].
Qed.

(* ------------------------------------------------------------------ *)
(** ** The further properties at the sample inputs *)

Lemma read_trajectory_success_sound_sample :
  exists (bytes : list byte) (frame_count : Z),
    single_file "traj.bin" sample_truncated "traj.bin" = Some bytes /\
    file_magic bytes = SCHR /\
    struct.unpack_iii LittleEndian (file_header bytes) = Ok (1, 1, frame_count) /\
    (length sample_frames <= Z.to_nat frame_count)%nat.
Proof.
  apply (read_trajectory_success_sound LittleEndian
           (single_file "traj.bin" sample_truncated) "traj.bin" 1 1 sample_frames).
  reflexivity.
Defined.

Lemma read_trajectory_warning_exact_sample :
  exists frame_count : Z,
    (length sample_frames = Z.to_nat frame_count /\
     printed (read_trajectory LittleEndian
                (single_file "traj.bin" sample_truncated) "traj.bin") =
       [MsgLoading "traj.bin" 1 1 frame_count]) \/
    ((length sample_frames < Z.to_nat frame_count)%nat /\
     printed (read_trajectory LittleEndian
                (single_file "traj.bin" sample_truncated) "traj.bin") =
       [MsgLoading "traj.bin" 1 1 frame_count;
        MsgIncomplete (Z.of_nat (length sample_frames))]).
Proof.
  apply (read_trajectory_warning_exact LittleEndian
           (single_file "traj.bin" sample_truncated) "traj.bin" 1 1 sample_frames).
  reflexivity.
Defined.


Lemma read_trajectory_frame_shapes_sample :
  Forall (fun f => shape f = [1; 1] /\ Z.of_nat (length (data f)) = 1 * 1) sample_frames.
Proof.
  apply (read_trajectory_frame_shapes LittleEndian
           (single_file "traj.bin" sample_truncated) "traj.bin" sample_truncated 1 1 5
           sample_frames);
    [reflexivity | reflexivity | reflexivity | lia | lia | lia | reflexivity].
Defined.


Lemma read_trajectory_prefix_stable_sample :
  exists frames' : list frame,
    returned (read_trajectory LittleEndian
                (single_file "cut.bin" (take 40 sample_truncated)) "cut.bin") =
      Ok (1, 1, frames') /\
    frames' `prefix_of` sample_frames.
Proof.
  apply (read_trajectory_prefix_stable LittleEndian
           (single_file "traj.bin" sample_truncated)
           (single_file "cut.bin" (take 40 sample_truncated))
           "traj.bin" "cut.bin" sample_truncated 40 1 1 5 sample_frames);
    [reflexivity | reflexivity | lia | reflexivity | reflexivity | lia | lia | lia
    | reflexivity].
Defined.

Lemma read_trajectory_int_range_sample :
  - 2 ^ 31 <= 1 < 2 ^ 31 /\ - 2 ^ 31 <= 1 < 2 ^ 31 /\
  Z.of_nat (length sample_frames) < 2 ^ 31.
Proof.
  apply (read_trajectory_int_range LittleEndian
           (single_file "traj.bin" sample_truncated) "traj.bin" 1 1 sample_frames).
  reflexivity.
Defined.

Lemma read_trajectory_frames_exact_sample :
  take (length sample_frames * frame_size 1 1) (file_payload sample_truncated) =
  take (length sample_frames * frame_size 1 1) (file_payload sample_complete).
Proof.
  apply (read_trajectory_frames_exact LittleEndian
           (single_file "traj.bin" sample_truncated)
           (single_file "whole.bin" sample_complete)
           "traj.bin" "whole.bin" sample_truncated sample_complete 1 1 5 2 sample_frames);
    [reflexivity | reflexivity | reflexivity | reflexivity | reflexivity | reflexivity
    | lia | lia | lia | lia | reflexivity | reflexivity].
Defined.

Lemma complex_to_rgb_image_shape_sample :
  exists image : ndarray R,
    image_of_call 0%nat [VComplex pair_frame] = Some image /\
    shape image = [1; 2; 3] /\
    length (data image) = (3 * length (data pair_frame))%nat /\
    (forall i : nat, is_Some (pixel_at image i) <-> (i < length (data pair_frame))%nat).
Proof.
  apply (complex_to_rgb_image_shape [VComplex pair_frame] 0%nat pair_frame 1 2);
    reflexivity.
Defined.

Lemma complex_to_rgb_never_clips_sample :
  exists (out : ref) (s' : store) (image : ndarray R),
    complex_to_rgb 0%nat [VComplex pair_frame] = (Ok out, s') /\
    (length [VComplex pair_frame] < out)%nat /\
    s' !! out = Some (VFloat image) /\
    s' !! (out - 1)%nat = Some (VFloat image).
Proof.
  apply (complex_to_rgb_never_clips [VComplex pair_frame] 0%nat pair_frame).
  reflexivity.
Defined.

Lemma complex_to_rgb_local_sample :
  exists (image image' : ndarray R) (pixel : R * R * R),
    image_of_call 0%nat [VComplex unit_frame] = Some image /\
    image_of_call 1%nat [VComplex zero_frame; VComplex pair_frame] = Some image' /\
    pixel_at image 0 = Some pixel /\
    pixel_at image' 1 = Some pixel.
Proof.
  apply (complex_to_rgb_local [VComplex unit_frame]
           [VComplex zero_frame; VComplex pair_frame] 0%nat 1%nat
           unit_frame pair_frame 0%nat 1%nat (1, 0)%R);
    reflexivity.
Defined.

Lemma complex_to_rgb_sequence_sample :
  exists (out1 out2 : ref) (s1 s2 : store) (image1 image2 : ndarray R),
    complex_to_rgb 0%nat [VComplex unit_frame; VComplex pair_frame] = (Ok out1, s1) /\
    complex_to_rgb 1%nat s1 = (Ok out2, s2) /\
    image_of_call 0%nat [VComplex unit_frame; VComplex pair_frame] = Some image1 /\
    image_of_call 1%nat [VComplex unit_frame; VComplex pair_frame] = Some image2 /\
    s2 !! out1 = Some (VFloat image1) /\
    s2 !! out2 = Some (VFloat image2) /\
    out1 <> out2 /\
    (length [VComplex unit_frame; VComplex pair_frame] <= out1)%nat /\
    (length [VComplex unit_frame; VComplex pair_frame] <= out2)%nat /\
    s2 !! 0%nat = Some (VComplex unit_frame) /\
    s2 !! 1%nat = Some (VComplex pair_frame).
Proof.
  apply (complex_to_rgb_sequence [VComplex unit_frame; VComplex pair_frame]
           0%nat 1%nat unit_frame pair_frame);
    reflexivity.
Defined.
